(** * LINE transcription bot: the webhook of [line-transcriber/src/index.ts]

    A shallow embedding of the Cloudflare Worker that receives LINE webhook
    deliveries, checks their signature, and answers every audio or video
    message with its ElevenLabs transcription.

    Conventions.
    - A JavaScript string is the list of its UTF-16 code units, each a [Z]
      in [0, 65536).
    - A byte is a [Z] in [0, 256); a 32-bit word is a [Z] in [0, 2^32) and
      additions wrap around explicitly.
    - The body of a request is the list of its bytes; [c.req.text()] decodes
      it as UTF-8.
    - A promise that has settled is [Fulfilled] with a value or [Rejected]
      with an error; a synchronous expression that can throw evaluates to a
      [Completion].
    - Asynchronous code is a tree of suspensions ([Prog]): every [await] of
      an outbound call is a node whose continuation receives the settled
      outcome of the call. *)

From Stdlib Require Import String Ascii.
From Stdlib Require Import ZArith List Bool Lia.
Import ListNotations.
Local Open Scope Z_scope.

(* ===================================================================== *)
(** ** JavaScript strings and bytes *)
(* ===================================================================== *)

Definition JSString := list Z.
Definition Bytes := list Z.

(** The code units of an ASCII literal of the source. *)
Definition js (s : string) : JSString :=
  map (fun a => Z.of_N (N_of_ascii a)) (list_ascii_of_string s).
Arguments js : simpl never.

Fixpoint JSString_eqb (a b : JSString) : bool :=
  match a, b with
  | [], [] => true
  | x :: a', y :: b' => (x =? y) && JSString_eqb a' b'
  | _, _ => false
  end.

Module TextEncoder.

Definition is_high_surrogate (c : Z) : bool := (0xD800 <=? c) && (c <=? 0xDBFF).
Definition is_low_surrogate (c : Z) : bool := (0xDC00 <=? c) && (c <=? 0xDFFF).

(** UTF-8 bytes of one Unicode scalar value. *)
Definition utf8_of_code_point (cp : Z) : Bytes :=
  if cp <? 0x80 then [cp]
  else if cp <? 0x800 then
    [Z.lor 0xC0 (Z.shiftr cp 6); Z.lor 0x80 (Z.land cp 0x3F)]
  else if cp <? 0x10000 then
    [Z.lor 0xE0 (Z.shiftr cp 12);
     Z.lor 0x80 (Z.land (Z.shiftr cp 6) 0x3F);
     Z.lor 0x80 (Z.land cp 0x3F)]
  else
    [Z.lor 0xF0 (Z.shiftr cp 18);
     Z.lor 0x80 (Z.land (Z.shiftr cp 12) 0x3F);
     Z.lor 0x80 (Z.land (Z.shiftr cp 6) 0x3F);
     Z.lor 0x80 (Z.land cp 0x3F)].

Definition replacement_character : Z := 0xFFFD.

(** [new TextEncoder().encode(s)]: a surrogate pair is one code point, a
    surrogate without its partner is encoded as U+FFFD. *)
Fixpoint encode (s : JSString) : Bytes :=
  match s with
  | [] => []
  | c :: rest =>
      if is_high_surrogate c then
        match rest with
        | d :: rest' =>
            if is_low_surrogate d then
              utf8_of_code_point
                (0x10000 + Z.shiftl (c - 0xD800) 10 + (d - 0xDC00))
                ++ encode rest'
            else utf8_of_code_point replacement_character ++ encode rest
        | [] => utf8_of_code_point replacement_character
        end
      else if is_low_surrogate c then
        utf8_of_code_point replacement_character ++ encode rest
      else utf8_of_code_point c ++ encode rest
  end.

End TextEncoder.

Module TextDecoder.

(** The UTF-8 decoder of the Encoding Standard between two bytes: the code
    point read so far, the number of continuation bytes that are still
    needed, and the range the next byte has to lie in. *)
Record State := mkState {
  code_point : Z; bytes_needed : nat; lower_boundary : Z; upper_boundary : Z }.

Definition initial : State := mkState 0 0 0x80 0xBF.

(** The code units of a code point: one, or a surrogate pair. *)
Definition code_units (cp : Z) : JSString :=
  if cp <? 0x10000 then [cp]
  else [0xD800 + Z.shiftr (cp - 0x10000) 10; 0xDC00 + Z.land (cp - 0x10000) 0x3FF].

Definition replacement : JSString := [0xFFFD].

(** A byte that is read while no sequence is open. *)
Definition lead (b : Z) : JSString * State :=
  if b <=? 0x7F then ([b], initial)
  else if (0xC2 <=? b) && (b <=? 0xDF) then ([], mkState (Z.land b 0x1F) 1 0x80 0xBF)
  else if (0xE0 <=? b) && (b <=? 0xEF) then
    ([], mkState (Z.land b 0xF) 2
                 (if b =? 0xE0 then 0xA0 else 0x80) (if b =? 0xED then 0x9F else 0xBF))
  else if (0xF0 <=? b) && (b <=? 0xF4) then
    ([], mkState (Z.land b 0x7) 3
                 (if b =? 0xF0 then 0x90 else 0x80) (if b =? 0xF4 then 0x8F else 0xBF))
  else (replacement, initial).

(** One byte: what is put out, and the state after it.  A byte that breaks
    an open sequence puts out U+FFFD and is then read again as a first
    byte. *)
Definition step (st : State) (b : Z) : JSString * State :=
  match bytes_needed st with
  | O => lead b
  | S n =>
      if (lower_boundary st <=? b) && (b <=? upper_boundary st) then
        let cp := Z.lor (Z.shiftl (code_point st) 6) (Z.land b 0x3F) in
        match n with
        | O => (code_units cp, initial)
        | S _ => ([], mkState cp n 0x80 0xBF)
        end
      else (replacement ++ fst (lead b), snd (lead b))
  end.

(** A sequence that is still open at the end of the input is one U+FFFD. *)
Fixpoint decode_from (st : State) (bytes : Bytes) : JSString :=
  match bytes with
  | [] => match bytes_needed st with O => [] | S _ => replacement end
  | b :: rest => fst (step st b) ++ decode_from (snd (step st b)) rest
  end.

(** UTF-8 decode, as [Body.text()] does it: a byte order mark at the
    beginning is dropped, ill-formed sequences become U+FFFD. *)
Definition decode (bytes : Bytes) : JSString :=
  match bytes with
  | b0 :: b1 :: b2 :: rest =>
      if (b0 =? 0xEF) && (b1 =? 0xBB) && (b2 =? 0xBF) then decode_from initial rest
      else decode_from initial bytes
  | _ => decode_from initial bytes
  end.

End TextDecoder.

(* ===================================================================== *)
(** ** SHA-256 (FIPS 180-4), HMAC (RFC 2104) and base64 (RFC 4648) *)
(* ===================================================================== *)

Module SHA256.

(** The low 32 bits: additions and rotations wrap around. *)
Definition w32 (x : Z) : Z := Z.land x 0xFFFFFFFF.
Definition add32 (a b : Z) : Z := w32 (a + b).
Definition rotr (n x : Z) : Z :=
  w32 (Z.lor (Z.shiftr x n) (Z.shiftl x (32 - n))).
Definition not32 (x : Z) : Z := Z.lxor x 0xFFFFFFFF.

Definition Ch (x y z : Z) : Z := Z.lxor (Z.land x y) (Z.land (not32 x) z).
Definition Maj (x y z : Z) : Z :=
  Z.lxor (Z.lxor (Z.land x y) (Z.land x z)) (Z.land y z).
Definition Sigma0 (x : Z) : Z := Z.lxor (Z.lxor (rotr 2 x) (rotr 13 x)) (rotr 22 x).
Definition Sigma1 (x : Z) : Z := Z.lxor (Z.lxor (rotr 6 x) (rotr 11 x)) (rotr 25 x).
Definition sigma0 (x : Z) : Z := Z.lxor (Z.lxor (rotr 7 x) (rotr 18 x)) (Z.shiftr x 3).
Definition sigma1 (x : Z) : Z := Z.lxor (Z.lxor (rotr 17 x) (rotr 19 x)) (Z.shiftr x 10).

(** The constants of FIPS 180-4 are the first 32 bits of the fractional parts
    of the cube roots (square roots for the initial hash value) of the first
    primes: [floor (root (p * 2^(32 e)))] keeps 32 fractional bits. *)
Definition is_prime (n : nat) : bool :=
  forallb (fun d => negb (Nat.eqb (Nat.modulo n d) 0)) (seq 2 (n - 2)).

Definition primes : list Z := map Z.of_nat (filter is_prime (seq 2 310)).

Fixpoint root_bits (e n : Z) (bits : nat) (r : Z) : Z :=
  match bits with
  | O => r
  | S b =>
      let c := r + 2 ^ Z.of_nat b in
      root_bits e n b (if c ^ e <=? n then c else r)
  end.

Definition fractional_root (e p : Z) : Z :=
  w32 (root_bits e (p * 2 ^ (32 * e)) 40 0).

Definition K : list Z := Eval vm_compute in map (fractional_root 3) primes.

(** The eight working variables, also the chaining value. *)
Record State := mkState { sa : Z; sb : Z; sc : Z; sd : Z; se : Z; sf : Z; sg : Z; sh : Z }.

Definition state_of_list (ws : list Z) : State :=
  mkState (nth 0 ws 0) (nth 1 ws 0) (nth 2 ws 0) (nth 3 ws 0)
          (nth 4 ws 0) (nth 5 ws 0) (nth 6 ws 0) (nth 7 ws 0).

Definition H0 : State :=
  Eval vm_compute in state_of_list (map (fractional_root 2) (firstn 8 primes)).

(** Message, a 0x80 byte, zeros up to 56 mod 64, the bit length on 8 bytes. *)
Definition be_bytes (n : nat) (x : Z) : Bytes :=
  map (fun i => Z.shiftr x (8 * Z.of_nat i) mod 256) (rev (seq 0 n)).

Definition pad (msg : Bytes) : Bytes :=
  let len := Z.of_nat (length msg) in
  let zeros := Z.to_nat ((55 - len) mod 64) in
  msg ++ [0x80] ++ repeat 0 zeros ++ be_bytes 8 (8 * len).

(** Big-endian 32-bit words of a byte sequence (a last partial word is dropped;
    padded messages have none). *)
Fixpoint words (bs : Bytes) : list Z :=
  match bs with
  | b0 :: b1 :: b2 :: b3 :: rest =>
      (Z.shiftl b0 24 + Z.shiftl b1 16 + Z.shiftl b2 8 + b3) :: words rest
  | _ => []
  end.

(** Sixteen-word blocks, in order. *)
Fixpoint blocks_aux (cur : list Z) (room : nat) (ws : list Z) : list (list Z) :=
  match ws with
  | [] => []
  | w :: ws' =>
      match room with
      | O | 1%nat => rev (w :: cur) :: blocks_aux [] 16%nat ws'
      | S room' => blocks_aux (w :: cur) room' ws'
      end
  end.
Definition blocks (ws : list Z) : list (list Z) := blocks_aux [] 16%nat ws.

(** Message schedule: [win] holds the last sixteen words, oldest first. *)
Fixpoint extend (n : nat) (win : list Z) : list Z :=
  match n with
  | O => []
  | S n' =>
      let w := add32 (add32 (sigma1 (nth 14 win 0)) (nth 9 win 0))
                     (add32 (sigma0 (nth 1 win 0)) (nth 0 win 0)) in
      w :: extend n' (tl win ++ [w])
  end.
Definition schedule (block : list Z) : list Z := block ++ extend 48 block.

Definition round (s : State) (kw : Z * Z) : State :=
  let '(k, w) := kw in
  let t1 := add32 (add32 (add32 (sh s) (Sigma1 (se s))) (Ch (se s) (sf s) (sg s)))
                  (add32 k w) in
  let t2 := add32 (Sigma0 (sa s)) (Maj (sa s) (sb s) (sc s)) in
  mkState (add32 t1 t2) (sa s) (sb s) (sc s) (add32 (sd s) t1) (se s) (sf s) (sg s).

Definition compress (h : State) (block : list Z) : State :=
  let s := fold_left round (combine K (schedule block)) h in
  mkState (add32 (sa h) (sa s)) (add32 (sb h) (sb s)) (add32 (sc h) (sc s))
          (add32 (sd h) (sd s)) (add32 (se h) (se s)) (add32 (sf h) (sf s))
          (add32 (sg h) (sg s)) (add32 (sh h) (sh s)).

Definition digest_bytes (s : State) : Bytes :=
  be_bytes 4 (sa s) ++ be_bytes 4 (sb s) ++ be_bytes 4 (sc s) ++ be_bytes 4 (sd s) ++
  be_bytes 4 (se s) ++ be_bytes 4 (sf s) ++ be_bytes 4 (sg s) ++ be_bytes 4 (sh s).

Definition sha256 (msg : Bytes) : Bytes :=
  digest_bytes (fold_left compress (blocks (words (pad msg))) H0).

End SHA256.

Module HMAC.

Definition block_size : nat := 64.

(** The key block: a key longer than a block is hashed first, then the key
    is filled with zeros up to the block size. *)
Definition key_block (key : Bytes) : Bytes :=
  let k := if (block_size <? length key)%nat then SHA256.sha256 key else key in
  k ++ repeat 0 (block_size - length k).

Definition xor_with (c : Z) (bs : Bytes) : Bytes := map (fun b => Z.lxor b c) bs.

Definition hmac_sha256 (key msg : Bytes) : Bytes :=
  let k := key_block key in
  SHA256.sha256 (xor_with 0x5c k ++ SHA256.sha256 (xor_with 0x36 k ++ msg)).

End HMAC.

Module Base64.

Definition alphabet : JSString :=
  js "ABCDEFGHIJKLMNOPQRSTUVWXYZabcdefghijklmnopqrstuvwxyz0123456789+/".

Definition digit (n : Z) : Z := nth (Z.to_nat n) alphabet 0.
Definition pad_char : Z := 61.

(** Three bytes give four digits; one or two trailing bytes are padded with [=]. *)
Fixpoint encode (bs : Bytes) : JSString :=
  match bs with
  | [] => []
  | [a] =>
      [digit (a / 4); digit (a mod 4 * 16); pad_char; pad_char]
  | [a; b] =>
      [digit (a / 4); digit (a mod 4 * 16 + b / 16); digit (b mod 16 * 4); pad_char]
  | a :: b :: c :: rest =>
      digit (a / 4) :: digit (a mod 4 * 16 + b / 16)
        :: digit (b mod 16 * 4 + c / 64) :: digit (c mod 64) :: encode rest
  end.

(** The number a digit stands for (0 for a code unit that is no digit). *)
Definition value (c : Z) : Z :=
  if (65 <=? c) && (c <=? 90) then c - 65
  else if (97 <=? c) && (c <=? 122) then c - 71
  else if (48 <=? c) && (c <=? 57) then c + 4
  else if c =? 43 then 62
  else if c =? 47 then 63
  else 0.

(** The bytes of a base64 text, four digits at a time. *)
Fixpoint decode (s : JSString) : Bytes :=
  match s with
  | c0 :: c1 :: c2 :: c3 :: rest =>
      let n := value c0 * 2 ^ 18 + value c1 * 2 ^ 12 + value c2 * 2 ^ 6 + value c3 in
      if c2 =? pad_char then [n / 65536]
      else if c3 =? pad_char then [n / 65536; n / 256 mod 256]
      else n / 65536 :: n / 256 mod 256 :: n mod 256 :: decode rest
  | _ => []
  end.

End Base64.

(** [btoa(String.fromCharCode(...bytes))]: every byte is one code unit below
    256, so [btoa] never raises and returns the base64 text of the bytes. *)
Definition btoa_of_bytes (bs : Bytes) : JSString := Base64.encode bs.

(* ===================================================================== *)
(** ** JavaScript values, as [JSON.parse] and property reads produce them *)
(* ===================================================================== *)

(** A Number that came from a JSON literal: the double nearest to
    [(-1)^negative * digits * 10^exp10]. *)
Record JSNumber := mkNumber { num_negative : bool; num_digits : Z; num_exp10 : Z }.

(** The literal rounds to +0 or -0 exactly when its magnitude is at most
    2^-1075, half of the least positive double. *)
Definition number_is_zero (n : JSNumber) : bool :=
  if num_digits n =? 0 then true
  else if 0 <=? num_exp10 n then false
  else num_digits n * 2 ^ 1075 <=? 10 ^ (- num_exp10 n).

#[warnings="-register-all"]
Inductive JSValue : Type :=
| VUndefined
| VNull
| VBool (b : bool)
| VNumber (n : JSNumber)
| VString (s : JSString)
| VArray (items : list JSValue)
| VObject (fields : list (JSString * JSValue)).

(** Errors a promise can be rejected with or a statement can throw. *)
Inductive JSError : Type :=
| TypeError (message : JSString)
| SyntaxError
| DataError
| ServiceError (statusCode : Z) (body : JSString)
| NetworkError (message : JSString).

(** What a synchronous expression evaluates to. *)
Inductive Completion (A : Type) : Type :=
| Normal (a : A)
| Thrown (e : JSError).
Arguments Normal {A} a.
Arguments Thrown {A} e.

(** A settled promise. *)
Inductive Settled (A : Type) : Type :=
| Fulfilled (a : A)
| Rejected (e : JSError).
Arguments Fulfilled {A} a.
Arguments Rejected {A} e.

(** ToBoolean. *)
Definition truthy (v : JSValue) : bool :=
  match v with
  | VUndefined | VNull => false
  | VBool b => b
  | VNumber n => negb (number_is_zero n)
  | VString s => match s with [] => false | _ => true end
  | VArray _ | VObject _ => true
  end.

Definition nullish (v : JSValue) : bool :=
  match v with
  | VUndefined | VNull => true
  | _ => false
  end.

(** The value bound to [key] in the fields of a parsed object; of two
    bindings of one key the later one stands. *)
Fixpoint lookup (key : JSString) (fields : list (JSString * JSValue)) : option JSValue :=
  match fields with
  | [] => None
  | (k, v) :: rest =>
      match lookup key rest with
      | Some later => Some later
      | None => if JSString_eqb k key then Some v else None
      end
  end.

(** [v.key] for a [v] that is neither [null] nor [undefined], for a [key]
    that no prototype defines (the program reads [events], [message],
    [replyToken], [type], [id], [source] and [userId] only): the own property
    of an object, [undefined] on every other value. *)
Definition property (v : JSValue) (key : JSString) : JSValue :=
  match v with
  | VObject fields =>
      match lookup key fields with
      | Some x => x
      | None => VUndefined
      end
  | _ => VUndefined
  end.

(** [v.key]: reading a property of [null] or [undefined] throws. *)
Definition get (v : JSValue) (key : JSString) : Completion JSValue :=
  match v with
  | VUndefined =>
      Thrown (TypeError (js "Cannot read properties of undefined (reading '" ++ key ++ js "')"))
  | VNull =>
      Thrown (TypeError (js "Cannot read properties of null (reading '" ++ key ++ js "')"))
  | _ => Normal (property v key)
  end.

(** [list.includes(x)] for a list of strings: SameValueZero finds [x] only
    when it is a string equal to an element. *)
Definition includes (list : list JSString) (x : JSValue) : bool :=
  match x with
  | VString s => existsb (JSString_eqb s) list
  | _ => false
  end.

(** A string that is put together from pieces.  The decimal text of a Number
    ([Number::toString]) is not spelled out: the piece keeps the number. *)
Inductive Piece : Type :=
| Units (s : JSString)
| NumberText (n : JSNumber).

Definition Text := list Piece.

(** ToString, as a template literal applies it to a value that came out of
    [JSON.parse].  An array is joined with commas ([Array.prototype.join]
    turns [null] into the empty string and converts every other element); an
    object without a [toString] of its own inherits the one of
    [Object.prototype]; an object with such a property cannot be converted,
    as no value of a JSON text can be called and the inherited [valueOf]
    returns the object itself. *)
Fixpoint ToString (v : JSValue) : Completion Text :=
  match v with
  | VUndefined => Normal [Units (js "undefined")]
  | VNull => Normal [Units (js "null")]
  | VBool true => Normal [Units (js "true")]
  | VBool false => Normal [Units (js "false")]
  | VNumber n => Normal [NumberText n]
  | VString s => Normal [Units s]
  | VArray items =>
      (fix join (l : list JSValue) : Completion Text :=
         match l with
         | [] => Normal []
         | x :: rest =>
             match (if nullish x then Normal [] else ToString x) with
             | Thrown e => Thrown e
             | Normal first =>
                 match rest with
                 | [] => Normal first
                 | _ :: _ =>
                     match join rest with
                     | Thrown e => Thrown e
                     | Normal others => Normal (first ++ Units (js ",") :: others)
                     end
                 end
             end
         end) items
  | VObject fields =>
      match lookup (js "toString") fields with
      | None => Normal [Units (js "[object Object]")]
      | Some _ => Thrown (TypeError (js "Cannot convert object to primitive value"))
      end
  end.

(* ===================================================================== *)
(** ** [JSON.parse] *)
(* ===================================================================== *)

Module JSON.

(** The grammar of ECMA-404 read by a pushdown automaton, one code unit at
    a time: the stack holds the arrays and objects that are still open. *)

Inductive Frame : Type :=
| FArray (items_rev : list JSValue)
| FObject (fields_rev : list (JSString * JSValue)) (key : JSString).

(** Where a string literal goes once its closing quote is read. *)
Inductive StringRole : Type :=
| AsValue
| AsKey (fields_rev : list (JSString * JSValue)).

Inductive NumberPart : Type :=
| NMinus | NZero | NInt | NDot | NFrac | NExp | NExpSign | NExpDigits.

Record NumberAcc := mkAcc {
  acc_negative : bool; acc_digits : Z; acc_frac : Z;
  acc_exp_negative : bool; acc_exp : Z }.

Inductive Mode : Type :=
| MValue
| MValueOrClose
| MKeyOrClose
| MKey (fields_rev : list (JSString * JSValue))
| MColon (fields_rev : list (JSString * JSValue)) (key : JSString)
| MAfter (v : JSValue)
| MString (role : StringRole) (acc_rev : JSString)
| MEscape (role : StringRole) (acc_rev : JSString)
| MUnicode (role : StringRole) (acc_rev : JSString) (missing : nat) (code : Z)
| MLiteral (rest : JSString) (v : JSValue)
| MNumber (part : NumberPart) (acc : NumberAcc).

Definition is_ws (c : Z) : bool :=
  (c =? 0x20) || (c =? 0x09) || (c =? 0x0A) || (c =? 0x0D).
Definition is_digit (c : Z) : bool := (48 <=? c) && (c <=? 57).

Definition hex_value (c : Z) : option Z :=
  if (48 <=? c) && (c <=? 57) then Some (c - 48)
  else if (65 <=? c) && (c <=? 70) then Some (c - 55)
  else if (97 <=? c) && (c <=? 102) then Some (c - 87)
  else None.

Definition number_of (a : NumberAcc) : JSNumber :=
  mkNumber (acc_negative a) (acc_digits a)
           ((if acc_exp_negative a then - acc_exp a else acc_exp a) - acc_frac a).

Definition accepting (p : NumberPart) : bool :=
  match p with
  | NZero | NInt | NFrac | NExpDigits => true
  | _ => false
  end.

Definition State := (Mode * list Frame)%type.

(** A value is complete; [c] is the code unit that follows it. *)
Definition step_after (v : JSValue) (stack : list Frame) (c : Z) : option State :=
  if is_ws c then Some (MAfter v, stack)
  else if c =? 44 (* , *) then
    match stack with
    | FArray items :: st => Some (MValue, FArray (v :: items) :: st)
    | FObject fields key :: st => Some (MKey ((key, v) :: fields), st)
    | [] => None
    end
  else if c =? 93 (* ] *) then
    match stack with
    | FArray items :: st => Some (MAfter (VArray (rev (v :: items))), st)
    | _ => None
    end
  else if c =? 125 (* } *) then
    match stack with
    | FObject fields key :: st => Some (MAfter (VObject (rev ((key, v) :: fields))), st)
    | _ => None
    end
  else None.

(** The first code unit of a value. *)
Definition step_value (stack : list Frame) (c : Z) : option State :=
  if c =? 34 (* quote *) then Some (MString AsValue [], stack)
  else if c =? 123 (* { *) then Some (MKeyOrClose, stack)
  else if c =? 91 (* [ *) then Some (MValueOrClose, FArray [] :: stack)
  else if c =? 45 (* - *) then Some (MNumber NMinus (mkAcc true 0 0 false 0), stack)
  else if c =? 48 then Some (MNumber NZero (mkAcc false 0 0 false 0), stack)
  else if is_digit c then Some (MNumber NInt (mkAcc false (c - 48) 0 false 0), stack)
  else if c =? 116 (* t *) then Some (MLiteral (js "rue") (VBool true), stack)
  else if c =? 102 (* f *) then Some (MLiteral (js "alse") (VBool false), stack)
  else if c =? 110 (* n *) then Some (MLiteral (js "ull") VNull, stack)
  else None.

Definition end_string (role : StringRole) (s : JSString) (stack : list Frame) : State :=
  match role with
  | AsValue => (MAfter (VString s), stack)
  | AsKey fields => (MColon fields s, stack)
  end.

Definition escape_value (c : Z) : option Z :=
  if c =? 34 then Some 34
  else if c =? 92 then Some 92
  else if c =? 47 then Some 47
  else if c =? 98 (* b *) then Some 8
  else if c =? 102 (* f *) then Some 12
  else if c =? 110 (* n *) then Some 10
  else if c =? 114 (* r *) then Some 13
  else if c =? 116 (* t *) then Some 9
  else None.

Definition add_digit (a : NumberAcc) (d : Z) : NumberAcc :=
  mkAcc (acc_negative a) (10 * acc_digits a + d) (acc_frac a)
        (acc_exp_negative a) (acc_exp a).
Definition add_frac_digit (a : NumberAcc) (d : Z) : NumberAcc :=
  mkAcc (acc_negative a) (10 * acc_digits a + d) (acc_frac a + 1)
        (acc_exp_negative a) (acc_exp a).
Definition add_exp_digit (a : NumberAcc) (d : Z) : NumberAcc :=
  mkAcc (acc_negative a) (acc_digits a) (acc_frac a)
        (acc_exp_negative a) (10 * acc_exp a + d).
Definition set_exp_sign (a : NumberAcc) (neg : bool) : NumberAcc :=
  mkAcc (acc_negative a) (acc_digits a) (acc_frac a) neg (acc_exp a).

Definition is_e (c : Z) : bool := (c =? 101) || (c =? 69).

Definition step_number (p : NumberPart) (a : NumberAcc) (stack : list Frame) (c : Z)
  : option State :=
  let finish := if accepting p then step_after (VNumber (number_of a)) stack c else None in
  match p with
  | NMinus =>
      if c =? 48 then Some (MNumber NZero a, stack)
      else if is_digit c then Some (MNumber NInt (add_digit a (c - 48)), stack)
      else None
  | NZero =>
      if c =? 46 then Some (MNumber NDot a, stack)
      else if is_e c then Some (MNumber NExp a, stack)
      else if is_digit c then None
      else finish
  | NInt =>
      if is_digit c then Some (MNumber NInt (add_digit a (c - 48)), stack)
      else if c =? 46 then Some (MNumber NDot a, stack)
      else if is_e c then Some (MNumber NExp a, stack)
      else finish
  | NDot =>
      if is_digit c then Some (MNumber NFrac (add_frac_digit a (c - 48)), stack)
      else None
  | NFrac =>
      if is_digit c then Some (MNumber NFrac (add_frac_digit a (c - 48)), stack)
      else if is_e c then Some (MNumber NExp a, stack)
      else finish
  | NExp =>
      if c =? 43 then Some (MNumber NExpSign a, stack)
      else if c =? 45 then Some (MNumber NExpSign (set_exp_sign a true), stack)
      else if is_digit c then Some (MNumber NExpDigits (add_exp_digit a (c - 48)), stack)
      else None
  | NExpSign =>
      if is_digit c then Some (MNumber NExpDigits (add_exp_digit a (c - 48)), stack)
      else None
  | NExpDigits =>
      if is_digit c then Some (MNumber NExpDigits (add_exp_digit a (c - 48)), stack)
      else finish
  end.

Definition step (st : State) (c : Z) : option State :=
  let '(mode, stack) := st in
  match mode with
  | MValue => if is_ws c then Some st else step_value stack c
  | MValueOrClose =>
      if is_ws c then Some st
      else if c =? 93 then
        match stack with
        | FArray items :: rest => Some (MAfter (VArray (rev items)), rest)
        | _ => None
        end
      else step_value stack c
  | MKeyOrClose =>
      if is_ws c then Some st
      else if c =? 34 then Some (MString (AsKey []) [], stack)
      else if c =? 125 then Some (MAfter (VObject []), stack)
      else None
  | MKey fields =>
      if is_ws c then Some st
      else if c =? 34 then Some (MString (AsKey fields) [], stack)
      else None
  | MColon fields key =>
      if is_ws c then Some st
      else if c =? 58 then Some (MValue, FObject fields key :: stack)
      else None
  | MAfter v => step_after v stack c
  | MString role acc =>
      if c =? 34 then Some (end_string role (rev acc) stack)
      else if c =? 92 then Some (MEscape role acc, stack)
      else if c <? 0x20 then None
      else Some (MString role (c :: acc), stack)
  | MEscape role acc =>
      if c =? 117 (* u *) then Some (MUnicode role acc 4 0, stack)
      else match escape_value c with
           | Some x => Some (MString role (x :: acc), stack)
           | None => None
           end
  | MUnicode role acc missing code =>
      match hex_value c with
      | Some h =>
          match missing with
          | O | 1%nat => Some (MString role ((16 * code + h) :: acc), stack)
          | S m => Some (MUnicode role acc m (16 * code + h), stack)
          end
      | None => None
      end
  | MLiteral rest v =>
      match rest with
      | x :: rest' =>
          if c =? x then
            match rest' with
            | [] => Some (MAfter v, stack)
            | _ => Some (MLiteral rest' v, stack)
            end
          else None
      | [] => None
      end
  | MNumber p a => step_number p a stack c
  end.

Fixpoint run (st : State) (text : JSString) : option State :=
  match text with
  | [] => Some st
  | c :: rest =>
      match step st c with
      | Some st' => run st' rest
      | None => None
      end
  end.

(** The value of the text when its last code unit has been read. *)
Definition finish (st : State) : option JSValue :=
  match st with
  | (MAfter v, []) => Some v
  | (MNumber p a, []) => if accepting p then Some (VNumber (number_of a)) else None
  | _ => None
  end.

(** [JSON.parse(text)]: the value, or [None] where it throws a SyntaxError. *)
Definition parse (text : JSString) : option JSValue :=
  match run (MValue, []) text with
  | Some st => finish st
  | None => None
  end.

End JSON.

(** A JSON text of the tests, written with ['] in place of the double quote. *)
Definition json_text (s : string) : JSString :=
  map (fun c => if c =? 39 then 34 else c) (js s).

(* ===================================================================== *)
(** ** Outbound calls and asynchronous programs *)
(* ===================================================================== *)

Record Env := mkEnv {
  LINE_CHANNEL_SECRET : JSString;
  LINE_CHANNEL_ACCESS_TOKEN : JSString;
  ELEVENLABS_API_KEY : JSString }.

(** A URL of the source: a literal, or a template literal with one hole (the
    hole keeps the text the interpolated value was converted to). *)
Inductive Url : Type :=
| UrlLiteral (url : JSString)
| UrlTemplate (before : JSString) (hole : Text) (after : JSString).

(** A request body of the source: [JSON.stringify(v)], kept as [v]. *)
Inductive Payload : Type :=
| JSON_stringify (v : JSValue).

Record RequestInit := mkInit {
  init_method : option JSString;
  init_headers : list (JSString * JSString);
  init_body : option Payload }.

(** What [fetch] resolves with. *)
Record FetchResponse := mkFetchResponse { fetch_status : Z; fetch_body : Bytes }.

Record ConvertRequest := mkConvert {
  convert_file : Bytes;
  convert_model_id : JSString;
  convert_tag_audio_events : bool }.

(** What [client.speechToText.convert] resolves with; [result_text] is [None]
    when the response carries no [text]. *)
Record TranscriptionResult := mkResult {
  result_text : option JSString;
  result_language_code : JSString }.

Inductive Call : Type :=
| fetch (url : Url) (init : RequestInit)
| arrayBuffer (response : FetchResponse)
| speechToText_convert (apiKey : JSString) (request : ConvertRequest).

Definition Answer (c : Call) : Type :=
  match c with
  | fetch _ _ => FetchResponse
  | arrayBuffer _ => Bytes
  | speechToText_convert _ _ => TranscriptionResult
  end.

Inductive LogEntry : Type :=
| LogEvent (event : JSValue)
| LogResponses (responses : list FetchResponse).

(** An [async] function body: it returns, throws, writes to the console and
    goes on, or issues a call and is resumed with the settled outcome. *)
Inductive Prog (A : Type) : Type :=
| Return (a : A)
| Throw (e : JSError)
| ConsoleLog (entry : LogEntry) (k : Prog A)
| Await (c : Call) (k : Settled (Answer c) -> Prog A).
Arguments Return {A} a.
Arguments Throw {A} e.
Arguments ConsoleLog {A} entry k.
Arguments Await {A} c k.

Fixpoint bind {A B : Type} (p : Prog A) (f : A -> Prog B) : Prog B :=
  match p with
  | Return a => f a
  | Throw e => Throw e
  | ConsoleLog entry k => ConsoleLog entry (bind k f)
  | Await c k => Await c (fun r => bind (k r) f)
  end.

Declare Scope prog_scope.
Delimit Scope prog_scope with prog.
Notation "x <- p ;; q" := (bind p (fun x => q))
  (at level 61, p at next level, right associativity) : prog_scope.
Notation "p ;; q" := (bind p (fun _ => q))
  (at level 61, right associativity) : prog_scope.
Local Open Scope prog_scope.

(** [await call] outside any [try]: a rejection is thrown on. *)
Definition settle {A : Type} (r : Settled A) : Prog A :=
  match r with
  | Fulfilled a => Return a
  | Rejected e => Throw e
  end.
Definition await (c : Call) : Prog (Answer c) := Await c settle.

Definition console_log (entry : LogEntry) : Prog unit := ConsoleLog entry (Return tt).

(** A synchronous expression inside an [async] body. *)
Definition eval {A : Type} (c : Completion A) : Prog A :=
  match c with
  | Normal a => Return a
  | Thrown e => Throw e
  end.

(* ===================================================================== *)
(** ** The signature verifier *)
(* ===================================================================== *)

(** A key that was imported for HMAC with SHA-256. *)
Inductive CryptoKey : Type :=
| HmacKey (keyData : Bytes).

(** [crypto.subtle.importKey("raw", keyData, {name: "HMAC", hash: "SHA-256"},
    false, ["sign"])]: key data of length zero is refused with a
    DataError. *)
Definition subtle_importKey (keyData : Bytes) : Settled CryptoKey :=
  match keyData with
  | [] => Rejected DataError
  | _ :: _ => Fulfilled (HmacKey keyData)
  end.

(** [crypto.subtle.sign("HMAC", key, data)]: the HMAC-SHA256 tag of the data. *)
Definition subtle_sign (key : CryptoKey) (data : Bytes) : Bytes :=
  match key with
  | HmacKey keyData => HMAC.hmac_sha256 keyData data
  end.

(** The base64 text of the tag of [body] under [secret], both in UTF-8. *)
Definition expected_signature (secret body : JSString) : JSString :=
  btoa_of_bytes (HMAC.hmac_sha256 (TextEncoder.encode secret) (TextEncoder.encode body)).

(** The promise of [validateSignature]: rejected when the key cannot be
    imported, fulfilled with the verdict otherwise. *)
Definition validateSignature (secret body signature : JSString) : Settled bool :=
  let keyData := TextEncoder.encode secret in
  let bodyData := TextEncoder.encode body in
  match subtle_importKey keyData with
  | Rejected e => Rejected e
  | Fulfilled key =>
      let sig := subtle_sign key bodyData in
      let expectedSignature := btoa_of_bytes sig in
      Fulfilled (JSString_eqb expectedSignature signature)
  end.

(* ===================================================================== *)
(** ** The reply sender and the per-event handler *)
(* ===================================================================== *)

Definition reply_endpoint : JSString := js "https://api.line.me/v2/bot/message/reply".
Definition loading_endpoint : JSString := js "https://api.line.me/v2/bot/chat/loading/start".

Definition bearer (token : JSString) : JSString := js "Bearer " ++ token.

Definition reply_payload (replyToken : JSValue) (messages : list JSString) : Payload :=
  JSON_stringify
    (VObject
       [(js "replyToken", replyToken);
        (js "messages",
         VArray (map (fun text => VObject [(js "type", VString (js "text"));
                                           (js "text", VString text)])
                     messages))]).

Definition reply_call (token : JSString) (replyToken : JSValue) (messages : list JSString) : Call :=
  fetch (UrlLiteral reply_endpoint)
        (mkInit (Some (js "POST"))
                [(js "Content-Type", js "application/json");
                 (js "Authorization", bearer token)]
                (Some (reply_payload replyToken messages))).

(** [replyText] returns the promise of its [fetch]: the caller settles as
    the reply request does. *)
Definition replyText (token : JSString) (replyToken : JSValue) (messages : list JSString)
  : Prog FetchResponse :=
  await (reply_call token replyToken messages).

Definition instruction : JSString := js "Please send an audio or video message.".
Definition placeholder : JSString := js "Could not transcribe the message.".

Definition loading_call (token : JSString) (userId : JSValue) : Call :=
  fetch (UrlLiteral loading_endpoint)
        (mkInit (Some (js "POST"))
                [(js "Content-Type", js "application/json");
                 (js "Authorization", bearer token)]
                (Some (JSON_stringify (VObject [(js "chatId", userId)])))).

(** The request for the content of a message, [messageId] being the text
    that [message.id] was converted to by the template literal of the URL. *)
Definition content_call (token : JSString) (messageId : Text) : Call :=
  fetch (UrlTemplate (js "https://api-data.line.me/v2/bot/message/") messageId (js "/content"))
        (mkInit None [(js "Authorization", bearer token)] None).

Definition convert_call (apiKey : JSString) (mediaBlob : Bytes) : Call :=
  speechToText_convert apiKey (mkConvert mediaBlob (js "scribe_v1") false).

(** [result.text || "Could not transcribe the message."] *)
Definition transcription_of (result : TranscriptionResult) : JSString :=
  match result_text result with
  | Some (c :: t) => c :: t
  | Some [] | None => placeholder
  end.

Definition reply_text_of (result : TranscriptionResult) : JSString :=
  js "[" ++ result_language_code result ++ js "]: " ++ transcription_of result.

(** [!message || !["audio", "video"].includes(message.type)] *)
Definition unsupported (message : JSValue) : Prog bool :=
  if negb (truthy message) then Return true
  else
    type <- eval (get message (js "type")) ;;
    Return (negb (includes [js "audio"; js "video"] type)).

Definition handleEvent (event : JSValue) (env : Env) : Prog FetchResponse :=
  console_log (LogEvent event) ;;
  message <- eval (get event (js "message")) ;;
  replyToken <- eval (get event (js "replyToken")) ;;
  reject <- unsupported message ;;
  if (reject : bool) then
    replyText (LINE_CHANNEL_ACCESS_TOKEN env) replyToken [instruction]
  else
    (* Start loading animation *)
    source <- eval (get event (js "source")) ;;
    userId <- eval (get source (js "userId")) ;;
    await (loading_call (LINE_CHANNEL_ACCESS_TOKEN env) userId) ;;
    (* Get the media content *)
    id <- eval (get message (js "id")) ;;
    messageId <- eval (ToString id) ;;
    mediaResponse <- await (content_call (LINE_CHANNEL_ACCESS_TOKEN env) messageId) ;;
    mediaBlob <- await (arrayBuffer mediaResponse) ;;
    result <- await (convert_call (ELEVENLABS_API_KEY env) mediaBlob) ;;
    replyText (LINE_CHANNEL_ACCESS_TOKEN env) replyToken [reply_text_of result].

(* ===================================================================== *)
(** ** Running programs against an environment *)
(* ===================================================================== *)

(** The outside world: the outcome of call [c] when it is the [t]-th call to
    be completed. *)
Definition Oracle := nat -> forall c : Call, Settled (Answer c).

(** What the worker does that can be observed. *)
Inductive Effect : Type :=
| Parsed (text : JSString)
| Logged (entry : LogEntry)
| Called (c : Call).

(** [e], then what [r] did. *)
Definition emit {A : Type} (e : Effect) (r : list Effect * A) : list Effect * A :=
  (e :: fst r, snd r).

(** One handler alone, every call answered as soon as it is issued. *)
Fixpoint run {A : Type} (o : Oracle) (t : nat) (p : Prog A) : list Effect * Settled A :=
  match p with
  | Return a => ([], Fulfilled a)
  | Throw e => ([], Rejected e)
  | ConsoleLog entry k => emit (Logged entry) (run o t k)
  | Await c k => emit (Called c) (run o (S t) (k (o t c)))
  end.

(** A started handler: suspended on a call that was issued, or settled. *)
Inductive Task (A : Type) : Type :=
| Waiting (c : Call) (k : Settled (Answer c) -> Prog A)
| Done (s : Settled A).
Arguments Waiting {A} c k.
Arguments Done {A} s.

(** The synchronous part of a program, up to its first suspension. *)
Fixpoint start {A : Type} (p : Prog A) : list Effect * Task A :=
  match p with
  | Return a => ([], Done (Fulfilled a))
  | Throw e => ([], Done (Rejected e))
  | ConsoleLog entry k => emit (Logged entry) (start k)
  | Await c k => ([Called c], Waiting c k)
  end.

(** [list.map(f)] for an [async] function [f]: every call of [f] runs its
    synchronous part, in order, and leaves a promise. *)
Fixpoint start_all {A : Type} (ps : list (Prog A)) : list Effect * list (Task A) :=
  match ps with
  | [] => ([], [])
  | p :: ps' =>
      (fst (start p) ++ fst (start_all ps'), snd (start p) :: snd (start_all ps'))
  end.

(** [Promise.all] over the promises of the tasks: rejected with the first
    rejection, fulfilled when all are, pending otherwise. *)
Fixpoint Promise_all {A : Type} (pool : list (Task A)) : option (Settled (list A)) :=
  match pool with
  | [] => Some (Fulfilled [])
  | Done (Rejected e) :: _ => Some (Rejected e)
  | Done (Fulfilled a) :: rest =>
      match Promise_all rest with
      | Some (Fulfilled l) => Some (Fulfilled (a :: l))
      | other => other
      end
  | Waiting _ _ :: rest =>
      match Promise_all rest with
      | Some (Rejected e) => Some (Rejected e)
      | _ => None
      end
  end.

(** The call task [i] waits for completes: the task runs on to its next
    suspension.  Nothing happens when task [i] is settled or missing. *)
Fixpoint resume {A : Type} (o : Oracle) (t : nat) (i : nat) (pool : list (Task A))
  : list Effect * list (Task A) :=
  match pool, i with
  | [], _ => ([], [])
  | Waiting c k :: rest, O => (fst (start (k (o t c))), snd (start (k (o t c))) :: rest)
  | Done s :: rest, O => ([], pool)
  | task :: rest, S i' => (fst (resume o t i' rest), task :: snd (resume o t i' rest))
  end.

(** [await Promise.all(pool)]: [sched] lists, in the order of completion, the
    tasks whose pending call completes.  The wait ends as soon as the
    aggregate promise is settled; it is still pending ([None]) when the
    schedule ends first. *)
Record Waited (A : Type) := mkWaited {
  waited_effects : list Effect;
  waited_pool : list (Task A);
  waited_outcome : option (Settled (list A)) }.
Arguments mkWaited {A} _ _ _.
Arguments waited_effects {A} _.
Arguments waited_pool {A} _.
Arguments waited_outcome {A} _.

Fixpoint await_all {A : Type} (o : Oracle) (sched : list nat) (t : nat) (pool : list (Task A))
  : Waited A :=
  match Promise_all pool with
  | Some s => mkWaited [] pool (Some s)
  | None =>
      match sched with
      | [] => mkWaited [] pool None
      | i :: sched' =>
          let w := await_all o sched' (S t) (snd (resume o t i pool)) in
          mkWaited (fst (resume o t i pool) ++ waited_effects w) (waited_pool w) (waited_outcome w)
      end
  end.

(* ===================================================================== *)
(** ** The webhook route *)
(* ===================================================================== *)

Record Request := mkRequest {
  req_body : Bytes;                          (* the bytes of the body *)
  req_x_line_signature : option JSString }.  (* c.req.header("x-line-signature") *)

(** [c.req.text()]: the body, decoded as UTF-8. *)
Definition req_text (req : Request) : JSString := TextDecoder.decode (req_body req).

Record Response := mkResponse { response_text : JSString; response_status : Z }.

(** [c.text(text, status)], the status being 200 when left out. *)
Definition c_text (text : JSString) (status : option Z) : Response :=
  mkResponse text (match status with Some s => s | None => 200 end).

(** [c.req.header("x-line-signature") || ""] *)
Definition signature_of (req : Request) : JSString :=
  match req_x_line_signature req with
  | Some s => if truthy (VString s) then s else js ""
  | None => js ""
  end.

(** [body.events || []], then the receiver of [.map]: only an array has one. *)
Definition events_of (body : JSValue) : Completion (list JSValue) :=
  match get body (js "events") with
  | Thrown e => Thrown e
  | Normal events =>
      match (if truthy events then events else VArray []) with
      | VArray items => Normal items
      | _ => Thrown (TypeError (js "events.map is not a function"))
      end
  end.

(** [await Promise.all(events.map((event) => handleEvent(event, env)))] *)
Definition dispatch (env : Env) (events : list JSValue) (o : Oracle) (sched : list nat)
  : Waited FetchResponse :=
  let started := start_all (map (fun event => handleEvent event env) events) in
  let w := await_all o sched 0 (snd started) in
  mkWaited (fst started ++ waited_effects w) (waited_pool w) (waited_outcome w).

(** The route handler of [POST /webhook]: what it did, and how its promise
    stands: fulfilled with a response, rejected, or pending when [sched]
    ends before the handlers have settled. *)
Definition webhook (env : Env) (req : Request) (o : Oracle) (sched : list nat)
  : list Effect * option (Settled Response) :=
  let bodyText := req_text req in
  let signature := signature_of req in
  match validateSignature (LINE_CHANNEL_SECRET env) bodyText signature with
  | Rejected e => ([], Some (Rejected e))
  | Fulfilled valid =>
      if negb valid then
        ([], Some (Fulfilled (c_text (js "Invalid signature") (Some 401))))
      else
        match JSON.parse bodyText with
        | None => ([Parsed bodyText], Some (Rejected SyntaxError))
        | Some body =>
            match events_of body with
            | Thrown e => ([Parsed bodyText], Some (Rejected e))
            | Normal events =>
                let w := dispatch env events o sched in
                match waited_outcome w with
                | Some (Fulfilled responses) =>
                    (Parsed bodyText :: waited_effects w ++ [Logged (LogResponses responses)],
                     Some (Fulfilled (c_text (js "OK") None)))
                | Some (Rejected e) => (Parsed bodyText :: waited_effects w, Some (Rejected e))
                | None => (Parsed bodyText :: waited_effects w, None)
                end
            end
        end
  end.

(* ===================================================================== *)
(** ** Observing a run *)
(* ===================================================================== *)

Definition calls (es : list Effect) : list Call :=
  flat_map (fun e => match e with Called c => [c] | _ => [] end) es.

Definition logged_events (es : list Effect) : list JSValue :=
  flat_map (fun e => match e with Logged (LogEvent ev) => [ev] | _ => [] end) es.

Definition is_reply (c : Call) : bool :=
  match c with
  | fetch (UrlLiteral u) _ => JSString_eqb u reply_endpoint
  | _ => false
  end.

Definition is_loading (c : Call) : bool :=
  match c with
  | fetch (UrlLiteral u) _ => JSString_eqb u loading_endpoint
  | _ => false
  end.

Definition is_media_fetch (c : Call) : bool :=
  match c with
  | fetch (UrlTemplate _ _ _) _ => true
  | arrayBuffer _ => true
  | _ => false
  end.

Definition is_transcription (c : Call) : bool :=
  match c with
  | speechToText_convert _ _ => true
  | _ => false
  end.

Definition replies (es : list Effect) : list Call := filter is_reply (calls es).

(** [event.message.type], read as the handler reads it. *)
Definition message_of (event : JSValue) : JSValue := property event (js "message").
Definition message_type (event : JSValue) : JSValue := property (message_of event) (js "type").
Definition is_media_event (event : JSValue) : bool :=
  includes [js "audio"; js "video"] (message_type event).

(** The handler of an audio or video event between its suspensions: what it
    does once the loading call, the content request, the body and the
    transcription have settled. *)
Definition after_convert (env : Env) (event : JSValue) (r : Settled TranscriptionResult)
  : Prog FetchResponse :=
  result <- settle r ;;
  replyText (LINE_CHANNEL_ACCESS_TOKEN env) (property event (js "replyToken"))
            [reply_text_of result].

Definition after_buffer (env : Env) (event : JSValue) (r : Settled Bytes)
  : Prog FetchResponse :=
  mediaBlob <- settle r ;;
  Await (convert_call (ELEVENLABS_API_KEY env) mediaBlob) (after_convert env event).

Definition after_content (env : Env) (event : JSValue) (r : Settled FetchResponse)
  : Prog FetchResponse :=
  mediaResponse <- settle r ;;
  Await (arrayBuffer mediaResponse) (after_buffer env event).

Definition after_loading (env : Env) (event : JSValue) (r : Settled FetchResponse)
  : Prog FetchResponse :=
  settle r ;;
  messageId <- eval (ToString (property (message_of event) (js "id"))) ;;
  Await (content_call (LINE_CHANNEL_ACCESS_TOKEN env) messageId) (after_content env event).

(** The loading call and the content request of an event. *)
Definition loading_of (env : Env) (event : JSValue) : Call :=
  loading_call (LINE_CHANNEL_ACCESS_TOKEN env)
               (property (property event (js "source")) (js "userId")).

(** The text [message.id] is converted to; no text when it cannot be. *)
Definition message_id_text (event : JSValue) : Text :=
  match ToString (property (message_of event) (js "id")) with
  | Normal text => text
  | Thrown _ => []
  end.

Definition content_of (env : Env) (event : JSValue) : Call :=
  content_call (LINE_CHANNEL_ACCESS_TOKEN env) (message_id_text event).

Definition reply_of (env : Env) (event : JSValue) (messages : list JSString) : Call :=
  reply_call (LINE_CHANNEL_ACCESS_TOKEN env) (property event (js "replyToken")) messages.

(* ===================================================================== *)
(** ** Measures for the proofs *)
(* ===================================================================== *)

Definition is_byte (b : Z) : Prop := 0 <= b < 256.

(** A program that writes nothing to the console and suspends at most [n]
    times, whatever it is answered. *)
Inductive bounded {A : Type} : nat -> Prog A -> Prop :=
| bounded_return (n : nat) (a : A) : bounded n (Return a)
| bounded_throw (n : nat) (e : JSError) : bounded n (Throw e)
| bounded_await (n : nat) (c : Call) (k : Settled (Answer c) -> Prog A) :
    (forall r, bounded n (k r)) -> bounded (S n) (Await c k).

Definition task_bounded {A : Type} (n : nat) (task : Task A) : Prop :=
  match task with
  | Done _ => True
  | Waiting c k => exists m, n = S m /\ forall r, bounded m (k r)
  end.

Definition is_done {A : Type} (task : Task A) : Prop :=
  match task with
  | Done _ => True
  | Waiting _ _ => False
  end.

(** The pool after every completion of [sched], the aggregate promise left
    aside. *)
Fixpoint resume_all {A : Type} (o : Oracle) (sched : list nat) (t : nat) (pool : list (Task A))
  : list (Task A) :=
  match sched with
  | [] => pool
  | i :: sched' => resume_all o sched' (S t) (snd (resume o t i pool))
  end.

(** The longest a handler can wait: five calls. *)
Definition handler_calls : nat := 5.

(** Task 0 until it settles, then task 1, and so on. *)
Definition complete_schedule (n : nat) : list nat :=
  flat_map (fun i => repeat i handler_calls) (seq 0 n).

(* ===================================================================== *)
(** ** Sample data *)
(* ===================================================================== *)

Definition sample_env : Env :=
  mkEnv (js "channel-secret") (js "channel-token") (js "elevenlabs-key").

Definition audio_event : JSValue :=
  VObject [(js "replyToken", VString (js "r1"));
           (js "source", VObject [(js "userId", VString (js "U1"))]);
           (js "message", VObject [(js "type", VString (js "audio")); (js "id", VString (js "42"))])].

Definition audio_event_without_source : JSValue :=
  VObject [(js "replyToken", VString (js "r1"));
           (js "message", VObject [(js "type", VString (js "audio")); (js "id", VString (js "42"))])].

Definition text_event : JSValue :=
  VObject [(js "replyToken", VString (js "r2"));
           (js "message", VObject [(js "type", VString (js "text"))])].

(** An environment in which the loading call and the transcription settle as
    given and every other call succeeds. *)
Definition world (loading : Settled FetchResponse) (transcription : Settled TranscriptionResult)
  : Oracle :=
  fun _ c =>
    match c with
    | fetch (UrlLiteral u) _ =>
        if JSString_eqb u loading_endpoint then loading
        else Fulfilled (mkFetchResponse 200 [])
    | fetch (UrlTemplate _ _ _) _ => Fulfilled (mkFetchResponse 200 [0x49; 0x44; 0x33])
    | arrayBuffer r => Fulfilled (fetch_body r)
    | speechToText_convert _ _ => transcription
    end.

(** The environment [o], except that every loading call settles as [r]. *)
Definition answer_loading (r : Settled FetchResponse) (o : Oracle) : Oracle :=
  fun t c =>
    match c as c' return Settled (Answer c') with
    | fetch url init =>
        if is_loading (fetch url init) then r else o t (fetch url init)
    | arrayBuffer resp => o t (arrayBuffer resp)
    | speechToText_convert k q => o t (speechToText_convert k q)
    end.

Definition sample_text : JSString :=
  json_text "{'events':[{'replyToken':'r1','source':{'userId':'U1'},'message':{'type':'audio','id':'42'}},{'replyToken':'r2','message':{'type':'text'}}]}".

Definition faulty_text : JSString :=
  json_text "{'events':[{'replyToken':'r1','message':{'type':'audio','id':'42'}},{'replyToken':'r2','message':{'type':'text'}}]}".

(** A delivery of [body] with the signature of its bytes under the channel
    secret of [env], as the chat platform signs it. *)
Definition signed (env : Env) (body : Bytes) : Request :=
  mkRequest body
    (Some (Base64.encode (HMAC.hmac_sha256 (TextEncoder.encode (LINE_CHANNEL_SECRET env)) body))).

Definition sample_value : JSValue := VObject [(js "events", VArray [audio_event; text_event])].

Definition bare_text : JSString := json_text "{'destination':'U0'}".

Definition sample_world : Oracle :=
  world (Fulfilled (mkFetchResponse 200 [])) (Fulfilled (mkResult (Some (js "hello")) (js "en"))).

(* ===================================================================== *)
(** ** Properties of all paths of a program *)
(* ===================================================================== *)

(** Every call the program can issue, whatever it is answered, satisfies [P]. *)
Inductive respects {A : Type} (P : Call -> Prop) : Prog A -> Prop :=
| respects_return (a : A) : respects P (Return a)
| respects_throw (e : JSError) : respects P (Throw e)
| respects_log (entry : LogEntry) (k : Prog A) :
    respects P k -> respects P (ConsoleLog entry k)
| respects_await (c : Call) (k : Settled (Answer c) -> Prog A) :
    P c -> (forall r, respects P (k r)) -> respects P (Await c k).

Definition task_respects {A : Type} (P : Call -> Prop) (task : Task A) : Prop :=
  match task with
  | Done _ => True
  | Waiting c k => forall r, respects P (k r)
  end.

(** The calls of every path of the program weigh at most [n], a call [c]
    weighing [w c]. *)
Inductive budget {A : Type} (w : Call -> nat) : nat -> Prog A -> Prop :=
| budget_return (n : nat) (a : A) : budget w n (Return a)
| budget_throw (n : nat) (e : JSError) : budget w n (Throw e)
| budget_log (n : nat) (entry : LogEntry) (k : Prog A) :
    budget w n k -> budget w n (ConsoleLog entry k)
| budget_await (n : nat) (c : Call) (k : Settled (Answer c) -> Prog A) :
    (forall r, budget w n (k r)) -> budget w (w c + n) (Await c k).

Definition task_budget {A : Type} (w : Call -> nat) (n : nat) (task : Task A) : Prop :=
  match task with
  | Done _ => True
  | Waiting c k => forall r, budget w n (k r)
  end.

Definition weight (w : Call -> nat) (es : list Effect) : nat := list_sum (map w (calls es)).

(** The number of calls of a kind. *)
Definition count_of (kind : Call -> bool) (c : Call) : nat := if kind c then 1%nat else 0%nat.

(** An environment whose answer to a call does not depend on when the call
    completes. *)
Definition timeless (o : Oracle) : Prop := forall t t' c, o t c = o t' c.

(** How a started handler ends when it runs on alone. *)
Definition alone {A : Type} (o : Oracle) (task : Task A) : Settled A :=
  match task with
  | Done s => s
  | Waiting c k => snd (run o 0%nat (k (o 0%nat c)))
  end.

(** The value of a request header. *)
Definition header_of (name : JSString) (init : RequestInit) : option JSString :=
  match find (fun h => JSString_eqb (fst h) name) (init_headers init) with
  | Some h => Some (snd h)
  | None => None
  end.

(** The three URLs of the chat platform the worker talks to. *)
Definition line_url (u : Url) : Prop :=
  match u with
  | UrlLiteral s => s = reply_endpoint \/ s = loading_endpoint
  | UrlTemplate before _ after =>
      before = js "https://api-data.line.me/v2/bot/message/" /\ after = js "/content"
  end.

(** A call that presents the right credential to the right service. *)
Definition authorized (env : Env) (c : Call) : Prop :=
  match c with
  | fetch url init =>
      line_url url /\
      header_of (js "Authorization") init = Some (js "Bearer " ++ LINE_CHANNEL_ACCESS_TOKEN env)
  | arrayBuffer _ => True
  | speechToText_convert apiKey request =>
      apiKey = ELEVENLABS_API_KEY env /\
      convert_model_id request = js "scribe_v1" /\
      convert_tag_audio_events request = false
  end.

(** An event whose handler throws before its first call: [null], or an audio
    or video message without [source]. *)
Definition faults_at_once (event : JSValue) : bool :=
  nullish event || (is_media_event event && nullish (property event (js "source"))).

Definition is_ascii (c : Z) : Prop := 0 <= c < 128.

(** [l] is the beginning of [full]. *)
Definition prefix_of {A : Type} (l full : list A) : Prop := exists rest, l ++ rest = full.

(** The value a request sends as its JSON body. *)
Definition sent_value (c : Call) : option JSValue :=
  match c with
  | fetch _ init =>
      match init_body init with
      | Some (JSON_stringify v) => Some v
      | None => None
      end
  | _ => None
  end.

(** The reply token of a reply request, read from the value it sends. *)
Definition sent_reply_token (c : Call) : option JSValue :=
  match sent_value c with
  | Some v => Some (property v (js "replyToken"))
  | None => None
  end.

(** A reply request, when it is one, carries the reply token of [event]. *)
Definition answers (event : JSValue) (c : Call) : Prop :=
  is_reply c = true -> sent_reply_token c = Some (property event (js "replyToken")).

(** The response of a reply request that was answered: [Some a] when [c] is
    a request to the reply endpoint and [r] fulfils it with [a]. *)
Definition reply_response (c : Call) : Settled (Answer c) -> option FetchResponse :=
  match c with
  | fetch url init =>
      fun r =>
        if is_reply (fetch url init) then
          match r with
          | Fulfilled a => Some a
          | Rejected _ => None
          end
        else None
  | arrayBuffer _ => fun _ => None
  | speechToText_convert _ _ => fun _ => None
  end.

(** A program all of whose calls satisfy [P] and which returns nothing but
    the response its reply request has just been fulfilled with; [last] is
    that response when the call answered last was a reply request. *)
Inductive returns_reply (P : Call -> Prop) : option FetchResponse -> Prog FetchResponse -> Prop :=
| returns_reply_return (a : FetchResponse) : returns_reply P (Some a) (Return a)
| returns_reply_throw (last : option FetchResponse) (e : JSError) :
    returns_reply P last (Throw e)
| returns_reply_log (last : option FetchResponse) (entry : LogEntry) (k : Prog FetchResponse) :
    returns_reply P last k -> returns_reply P last (ConsoleLog entry k)
| returns_reply_await (last : option FetchResponse) (c : Call)
                      (k : Settled (Answer c) -> Prog FetchResponse) :
    P c -> (forall r, returns_reply P (reply_response c r) (k r)) ->
    returns_reply P last (Await c k).

(** A task at time [T], the effects so far being [E]: the call it waits for
    was issued; a fulfilled task holds the response that the environment
    gave, before [T], to a reply request that was issued. *)
Definition task_returns_reply (P : Call -> Prop) (o : Oracle) (T : nat) (E : list Effect)
           (task : Task FetchResponse) : Prop :=
  match task with
  | Waiting c k =>
      In (Called c) E /\ P c /\ forall r, returns_reply P (reply_response c r) (k r)
  | Done (Fulfilled a) =>
      exists c t, (t < T)%nat /\ In (Called c) E /\ P c /\ reply_response c (o t c) = Some a
  | Done (Rejected _) => True
  end.

(** A program that neither throws nor is rejected as long as its calls are
    fulfilled. *)
Inductive succeeds {A : Type} : Prog A -> Prop :=
| succeeds_return (a : A) : succeeds (Return a)
| succeeds_log (entry : LogEntry) (k : Prog A) : succeeds k -> succeeds (ConsoleLog entry k)
| succeeds_await (c : Call) (k : Settled (Answer c) -> Prog A) :
    (forall a, succeeds (k (Fulfilled a))) -> succeeds (Await c k).

Definition task_succeeds {A : Type} (task : Task A) : Prop :=
  match task with
  | Waiting c k => forall a, succeeds (k (Fulfilled a))
  | Done (Fulfilled _) => True
  | Done (Rejected _) => False
  end.

(** An event whose handler throws by itself, whatever the environment:
    [null], an audio or video message without [source], or one whose [id]
    cannot be converted to a string. *)
Definition faults (event : JSValue) : bool :=
  faults_at_once event ||
  (is_media_event event &&
   match ToString (property (message_of event) (js "id")) with
   | Thrown _ => true
   | Normal _ => false
   end).

(* ===================================================================== *)
(** ** Test vectors *)
(* ===================================================================== *)

Example sha256_constants :
  length SHA256.K = 64%nat /\
  nth 0 SHA256.K 0 = 0x428a2f98 /\ nth 63 SHA256.K 0 = 0xc67178f2 /\
  SHA256.sa SHA256.H0 = 0x6a09e667 /\ SHA256.sh SHA256.H0 = 0x5be0cd19.
Proof. vm_compute. repeat split. Qed.

Example sha256_abc :
  SHA256.sha256 (js "abc") =
  [0xba; 0x78; 0x16; 0xbf; 0x8f; 0x01; 0xcf; 0xea; 0x41; 0x41; 0x40; 0xde; 0x5d; 0xae; 0x22; 0x23;
   0xb0; 0x03; 0x61; 0xa3; 0x96; 0x17; 0x7a; 0x9c; 0xb4; 0x10; 0xff; 0x61; 0xf2; 0x00; 0x15; 0xad].
Proof. vm_compute. reflexivity. Qed.

Example sha256_two_blocks :
  SHA256.sha256 (js "abcdbcdecdefdefgefghfghighijhijkijkljklmklmnlmnomnopnopq") =
  [0x24; 0x8d; 0x6a; 0x61; 0xd2; 0x06; 0x38; 0xb8; 0xe5; 0xc0; 0x26; 0x93; 0x0c; 0x3e; 0x60; 0x39;
   0xa3; 0x3c; 0xe4; 0x59; 0x64; 0xff; 0x21; 0x67; 0xf6; 0xec; 0xed; 0xd4; 0x19; 0xdb; 0x06; 0xc1].
Proof. vm_compute. reflexivity. Qed.

(** RFC 4231, test case 2. *)
Example hmac_rfc4231_2 :
  HMAC.hmac_sha256 (js "Jefe") (js "what do ya want for nothing?") =
  [0x5b; 0xdc; 0xc1; 0x46; 0xbf; 0x60; 0x75; 0x4e; 0x6a; 0x04; 0x24; 0x26; 0x08; 0x95; 0x75; 0xc7;
   0x5a; 0x00; 0x3f; 0x08; 0x9d; 0x27; 0x39; 0x83; 0x9d; 0xec; 0x58; 0xb9; 0x64; 0xec; 0x38; 0x43].
Proof. vm_compute. reflexivity. Qed.

(** RFC 4231, test case 6: a key longer than the block is hashed first. *)
Example hmac_rfc4231_6 :
  HMAC.hmac_sha256 (repeat 0xaa 131)
    (js "Test Using Larger Than Block-Size Key - Hash Key First") =
  [0x60; 0xe4; 0x31; 0x59; 0x1e; 0xe0; 0xb6; 0x7f; 0x0d; 0x8a; 0x26; 0xaa; 0xcb; 0xf5; 0xb7; 0x7f;
   0x8e; 0x0b; 0xc6; 0x21; 0x37; 0x28; 0xc5; 0x14; 0x05; 0x46; 0x04; 0x0f; 0x0e; 0xe3; 0x7f; 0x54].
Proof. vm_compute. reflexivity. Qed.

(** RFC 4648, section 10. *)
Example base64_rfc4648 :
  Base64.encode (js "foobar") = js "Zm9vYmFy" /\
  Base64.encode (js "fooba") = js "Zm9vYmE=" /\
  Base64.encode (js "foob") = js "Zm9vYg==".
Proof. vm_compute. repeat split. Qed.

Example textencoder_samples :
  TextEncoder.encode [0x41; 0xE9; 0x20AC] = [0x41; 0xC3; 0xA9; 0xE2; 0x82; 0xAC] /\
  TextEncoder.encode [0xD83D; 0xDE00] = [0xF0; 0x9F; 0x98; 0x80] /\
  TextEncoder.encode [0xD83D; 0x41] = [0xEF; 0xBF; 0xBD; 0x41] /\
  TextEncoder.encode [0xDE00] = [0xEF; 0xBF; 0xBD].
Proof. vm_compute. repeat split. Qed.

Example json_parse_samples :
  JSON.parse (json_text "{'a': [1, true, null], 'a': 'xA'}") =
    Some (VObject [(js "a", VArray [VNumber (mkNumber false 1 0); VBool true; VNull]);
                   (js "a", VString (js "xA"))]) /\
  property (VObject [(js "a", VNull); (js "a", VString (js "xA"))]) (js "a") = VString (js "xA") /\
  JSON.parse (json_text "{'events': [1,]}") = None /\
  JSON.parse (json_text "01") = None /\
  JSON.parse (json_text "") = None /\
  JSON.parse (json_text " -1.5e3 ") = Some (VNumber (mkNumber true 15 2)).
Proof. vm_compute. repeat split. Qed.

(* ===================================================================== *)
(** ** Strings, digests and base64 *)
(* ===================================================================== *)

Lemma JSString_eqb_eq (a b : JSString) : JSString_eqb a b = true <-> a = b.
Proof.
  revert b. induction a as [|x a IH]; intros [|y b]; simpl; split; intro H;
    try reflexivity; try discriminate.
  - apply andb_true_iff in H. destruct H as [Hx Hab].
    apply Z.eqb_eq in Hx. apply IH in Hab. congruence.
  - injection H as -> ->. apply andb_true_iff. split.
    + apply Z.eqb_refl.
    + apply IH. reflexivity.
Qed.

Lemma JSString_eqb_refl (a : JSString) : JSString_eqb a a = true.
Proof. apply JSString_eqb_eq. reflexivity. Qed.

Lemma JSString_eqb_neq (a b : JSString) : JSString_eqb a b = false <-> a <> b.
Proof.
  split.
  - intros H E. apply JSString_eqb_eq in E. congruence.
  - intros H. destruct (JSString_eqb a b) eqn:E; [|reflexivity].
    apply JSString_eqb_eq in E. contradiction.
Qed.

Lemma be_bytes_are_bytes (n : nat) (x : Z) : Forall is_byte (SHA256.be_bytes n x).
Proof.
  unfold SHA256.be_bytes. apply Forall_forall. intros b Hb.
  apply in_map_iff in Hb. destruct Hb as [i [<- _]].
  unfold is_byte. apply Z.mod_pos_bound. lia.
Qed.

Lemma sha256_bytes (msg : Bytes) : Forall is_byte (SHA256.sha256 msg).
Proof.
  unfold SHA256.sha256, SHA256.digest_bytes.
  repeat (apply Forall_app; split); apply be_bytes_are_bytes.
Qed.

Lemma sha256_length (msg : Bytes) : length (SHA256.sha256 msg) = 32%nat.
Proof. reflexivity. Qed.

Lemma hmac_bytes (key msg : Bytes) : Forall is_byte (HMAC.hmac_sha256 key msg).
Proof. apply sha256_bytes. Qed.

Lemma hmac_length (key msg : Bytes) : length (HMAC.hmac_sha256 key msg) = 32%nat.
Proof. apply sha256_length. Qed.

Lemma list_ind3 (A : Type) (P : list A -> Prop) :
  P [] -> (forall a, P [a]) -> (forall a b, P [a; b]) ->
  (forall a b c l, P l -> P (a :: b :: c :: l)) ->
  forall l, P l.
Proof.
  intros H0 H1 H2 H3.
  assert (H : forall l, P l /\ (forall a, P (a :: l)) /\ (forall a b, P (a :: b :: l))).
  { induction l as [|x l [IH0 [IH1 IH2]]]; repeat split; auto. }
  intro l. apply H.
Qed.

Lemma base64_digit_value (n : Z) :
  0 <= n < 64 ->
  Base64.value (Base64.digit n) = n /\ (Base64.digit n =? Base64.pad_char) = false.
Proof.
  intros H. rewrite <- (Z2Nat.id n) by lia.
  assert (Hk : (Z.to_nat n < 64)%nat) by lia.
  generalize dependent (Z.to_nat n). clear n H. intros k Hk.
  do 64 (destruct k as [|k]; [vm_compute; split; reflexivity|]).
  lia.
Qed.

Lemma base64_nonempty (bs : Bytes) : bs <> [] -> Base64.encode bs <> [].
Proof.
  destruct bs as [|a [|b [|c rest]]]; simpl; intros H; congruence.
Qed.

Lemma sextets_value (a b c : Z) :
  is_byte a -> is_byte b -> is_byte c ->
  a / 4 * 2 ^ 18 + (a mod 4 * 16 + b / 16) * 2 ^ 12 + (b mod 16 * 4 + c / 64) * 2 ^ 6 + c mod 64
  = a * 65536 + b * 256 + c.
Proof.
  unfold is_byte. intros Ha Hb Hc.
  change (2 ^ 18) with 262144. change (2 ^ 12) with 4096. change (2 ^ 6) with 64.
  Z.div_mod_to_equations. lia.
Qed.

Lemma sextet_ranges (a b c : Z) :
  is_byte a -> is_byte b -> is_byte c ->
  0 <= a / 4 < 64 /\ 0 <= a mod 4 * 16 + b / 16 < 64 /\
  0 <= b mod 16 * 4 + c / 64 < 64 /\ 0 <= c mod 64 < 64.
Proof.
  unfold is_byte. intros Ha Hb Hc. Z.div_mod_to_equations. lia.
Qed.

Lemma bytes_of_value (a b c : Z) :
  is_byte a -> is_byte b -> is_byte c ->
  (a * 65536 + b * 256 + c) / 65536 = a /\
  (a * 65536 + b * 256 + c) / 256 mod 256 = b /\
  (a * 65536 + b * 256 + c) mod 256 = c.
Proof.
  unfold is_byte. intros Ha Hb Hc. Z.div_mod_to_equations. lia.
Qed.

Lemma one_byte_group (a : Z) :
  is_byte a ->
  0 <= a / 4 < 64 /\ 0 <= a mod 4 * 16 < 64 /\
  (a / 4 * 2 ^ 18 + a mod 4 * 16 * 2 ^ 12 + 0 * 2 ^ 6 + 0) / 65536 = a.
Proof.
  unfold is_byte. intros Ha.
  change (2 ^ 18) with 262144. change (2 ^ 12) with 4096. change (2 ^ 6) with 64.
  Z.div_mod_to_equations. lia.
Qed.

Lemma two_byte_group (a b : Z) :
  is_byte a -> is_byte b ->
  0 <= a / 4 < 64 /\ 0 <= a mod 4 * 16 + b / 16 < 64 /\ 0 <= b mod 16 * 4 < 64 /\
  (a / 4 * 2 ^ 18 + (a mod 4 * 16 + b / 16) * 2 ^ 12 + b mod 16 * 4 * 2 ^ 6 + 0) / 65536 = a /\
  (a / 4 * 2 ^ 18 + (a mod 4 * 16 + b / 16) * 2 ^ 12 + b mod 16 * 4 * 2 ^ 6 + 0) / 256 mod 256 = b.
Proof.
  unfold is_byte. intros Ha Hb.
  change (2 ^ 18) with 262144. change (2 ^ 12) with 4096. change (2 ^ 6) with 64.
  Z.div_mod_to_equations. lia.
Qed.

(** Decoding gives back the bytes that were encoded. *)
Lemma base64_decode_encode (bs : Bytes) :
  Forall is_byte bs -> Base64.decode (Base64.encode bs) = bs.
Proof.
  induction bs as [|a|a b|a b c rest IH] using list_ind3; intros Hbs.
  - reflexivity.
  - inversion Hbs as [|? ? Ha _]; subst.
    destruct (one_byte_group _ Ha) as [R0 [R1 E]].
    cbn [Base64.encode Base64.decode]. rewrite Z.eqb_refl.
    destruct (base64_digit_value _ R0) as [-> _].
    destruct (base64_digit_value _ R1) as [-> _].
    change (Base64.value Base64.pad_char) with 0.
    rewrite E. reflexivity.
  - inversion Hbs as [|? ? Ha Hbs']; subst. inversion Hbs' as [|? ? Hb _]; subst.
    destruct (two_byte_group _ _ Ha Hb) as [R0 [R1 [R2 [E0 E1]]]].
    cbn [Base64.encode Base64.decode].
    destruct (base64_digit_value _ R0) as [-> _].
    destruct (base64_digit_value _ R1) as [-> _].
    destruct (base64_digit_value _ R2) as [-> ->].
    rewrite Z.eqb_refl.
    change (Base64.value Base64.pad_char) with 0.
    rewrite E0, E1. reflexivity.
  - inversion Hbs as [|? ? Ha Hbs']; subst. inversion Hbs' as [|? ? Hb Hbs'']; subst.
    inversion Hbs'' as [|? ? Hc Hrest]; subst.
    destruct (sextet_ranges _ _ _ Ha Hb Hc) as [R0 [R1 [R2 R3]]].
    cbn [Base64.encode Base64.decode].
    destruct (base64_digit_value _ R0) as [-> _].
    destruct (base64_digit_value _ R1) as [-> _].
    destruct (base64_digit_value _ R2) as [-> ->].
    destruct (base64_digit_value _ R3) as [-> ->].
    rewrite (sextets_value _ _ _ Ha Hb Hc).
    destruct (bytes_of_value _ _ _ Ha Hb Hc) as [-> [-> ->]].
    rewrite IH by assumption. reflexivity.
Qed.

Lemma base64_injective (xs ys : Bytes) :
  Forall is_byte xs -> Forall is_byte ys ->
  Base64.encode xs = Base64.encode ys -> xs = ys.
Proof.
  intros Hx Hy E.
  rewrite <- (base64_decode_encode _ Hx), <- (base64_decode_encode _ Hy).
  rewrite E. reflexivity.
Qed.

Lemma expected_signature_nonempty (secret body : JSString) :
  expected_signature secret body <> [].
Proof.
  unfold expected_signature, btoa_of_bytes.
  apply base64_nonempty. intros E.
  pose proof (hmac_length (TextEncoder.encode secret) (TextEncoder.encode body)) as L.
  rewrite E in L. discriminate.
Qed.

Lemma includes_media (t : JSValue) :
  includes [js "audio"; js "video"] t = true <->
  t = VString (js "audio") \/ t = VString (js "video").
Proof.
  destruct t; simpl; split; intros H; try discriminate;
    try (destruct H as [H|H]; discriminate).
  - apply orb_true_iff in H. destruct H as [H|H].
    + left. apply JSString_eqb_eq in H. congruence.
    + apply orb_true_iff in H. destruct H as [H|H]; [|discriminate].
      right. apply JSString_eqb_eq in H. congruence.
  - destruct H as [H|H]; injection H as ->; reflexivity.
Qed.

Lemma media_event_message (event : JSValue) :
  is_media_event event = true ->
  nullish event = false /\ truthy (message_of event) = true /\ nullish (message_of event) = false.
Proof.
  unfold is_media_event, message_type, message_of. intros H.
  destruct event; try discriminate H.
  simpl in *. destruct (lookup (js "message") fields) as [m|]; [|discriminate H].
  destruct m; try discriminate H. auto.
Qed.

Lemma get_nullish (v : JSValue) (key : JSString) :
  nullish v = true -> exists msg, get v key = Thrown (TypeError msg).
Proof. destruct v; try discriminate; intros _; eexists; reflexivity. Qed.

Lemma get_not_nullish (v : JSValue) (key : JSString) :
  nullish v = false -> get v key = Normal (property v key).
Proof. destruct v; try discriminate; reflexivity. Qed.

Lemma handleEvent_nullish (event : JSValue) (env : Env) :
  nullish event = true ->
  exists msg, handleEvent event env = ConsoleLog (LogEvent event) (Throw (TypeError msg)).
Proof.
  intros H. unfold handleEvent.
  destruct (get_nullish event (js "message") H) as [msg ->]. cbn. eexists. reflexivity.
Qed.

Lemma handleEvent_unsupported (event : JSValue) (env : Env) :
  nullish event = false ->
  is_media_event event = false ->
  handleEvent event env =
  ConsoleLog (LogEvent event)
    (replyText (LINE_CHANNEL_ACCESS_TOKEN env) (property event (js "replyToken")) [instruction]).
Proof.
  intros Hn Hm. unfold handleEvent. rewrite !(get_not_nullish event _ Hn). cbn.
  unfold unsupported.
  unfold is_media_event, message_type, message_of in Hm.
  destruct (truthy (property event (js "message"))) eqn:Ht; cbn.
  - assert (Hnm : nullish (property event (js "message")) = false).
    { destruct (property event (js "message")); try reflexivity; discriminate Ht. }
    rewrite (get_not_nullish _ _ Hnm). cbn. rewrite Hm. cbn. reflexivity.
  - reflexivity.
Qed.

Lemma handleEvent_without_source (event : JSValue) (env : Env) :
  is_media_event event = true ->
  nullish (property event (js "source")) = true ->
  exists msg, handleEvent event env = ConsoleLog (LogEvent event) (Throw (TypeError msg)).
Proof.
  intros Hm Hs. destruct (media_event_message _ Hm) as [Hn [Ht Hnm]].
  unfold handleEvent. rewrite !(get_not_nullish event _ Hn). cbn.
  unfold unsupported. fold (message_of event). rewrite Ht.
  rewrite (get_not_nullish _ _ Hnm). cbn.
  fold (message_type event). unfold is_media_event in Hm. rewrite Hm. cbn.
  destruct (get_nullish _ (js "userId") Hs) as [msg ->]. cbn. eexists. reflexivity.
Qed.

Lemma handleEvent_media (event : JSValue) (env : Env) :
  is_media_event event = true ->
  nullish (property event (js "source")) = false ->
  handleEvent event env =
  ConsoleLog (LogEvent event)
    (Await (loading_call (LINE_CHANNEL_ACCESS_TOKEN env)
                         (property (property event (js "source")) (js "userId")))
           (after_loading env event)).
Proof.
  intros Hm Hs. destruct (media_event_message _ Hm) as [Hn [Ht Hnm]].
  unfold handleEvent. rewrite !(get_not_nullish event _ Hn). cbn.
  unfold unsupported. fold (message_of event). rewrite Ht.
  rewrite !(get_not_nullish _ _ Hnm). cbn.
  fold (message_type event). unfold is_media_event in Hm. rewrite Hm. cbn.
  rewrite (get_not_nullish _ _ Hs). cbn. reflexivity.
Qed.

Lemma is_media_event_iff (event : JSValue) :
  is_media_event event = true <->
  message_type event = VString (js "audio") \/ message_type event = VString (js "video").
Proof. apply includes_media. Qed.

Lemma not_media_event (event : JSValue) :
  message_of event = VUndefined \/
  (message_type event <> VString (js "audio") /\ message_type event <> VString (js "video")) ->
  is_media_event event = false.
Proof.
  intros H. destruct (is_media_event event) eqn:E; [|reflexivity].
  apply is_media_event_iff in E. destruct H as [H|[H1 H2]].
  - unfold message_type in E. rewrite H in E. destruct E; discriminate.
  - destruct E; contradiction.
Qed.

Lemma run_settle (A : Type) (o : Oracle) (t : nat) (r : Settled A) :
  run o t (settle r) = ([], r).
Proof. destruct r; reflexivity. Qed.

Lemma run_replyText (o : Oracle) (t : nat) (token : JSString) (replyToken : JSValue)
      (messages : list JSString) :
  run o t (replyText token replyToken messages) =
  ([Called (reply_call token replyToken messages)], o t (reply_call token replyToken messages)).
Proof. unfold replyText, await. cbn [run]. rewrite run_settle. reflexivity. Qed.

Lemma after_loading_fulfilled (env : Env) (event : JSValue) (a : FetchResponse) :
  after_loading env event (Fulfilled a) =
  match ToString (property (message_of event) (js "id")) with
  | Normal text => Await (content_call (LINE_CHANNEL_ACCESS_TOKEN env) text) (after_content env event)
  | Thrown e => Throw e
  end.
Proof.
  unfold after_loading. cbn [settle bind].
  destruct (ToString (property (message_of event) (js "id"))); reflexivity.
Qed.

Lemma message_id_text_eq (event : JSValue) (text : Text) :
  ToString (property (message_of event) (js "id")) = Normal text ->
  ToString (property (message_of event) (js "id")) = Normal (message_id_text event).
Proof. unfold message_id_text. intros ->. reflexivity. Qed.

(** The runs of the handler on an audio or video event that has a source,
    by the outcome of each call and of the conversion of [message.id]. *)
Section MediaRuns.

Variables (env : Env) (event : JSValue) (o : Oracle) (t : nat).
Hypothesis Hmedia : is_media_event event = true.
Hypothesis Hsource : nullish (property event (js "source")) = false.

Lemma run_loading_rejected (e : JSError) :
  o t (loading_of env event) = Rejected e ->
  run o t (handleEvent event env) = ([Logged (LogEvent event); Called (loading_of env event)], Rejected e).
Proof.
  intros H. rewrite (handleEvent_media event env Hmedia Hsource).
  cbn [run]. fold (loading_of env event). rewrite H. reflexivity.
Qed.

Lemma run_conversion_thrown (a : FetchResponse) (e : JSError) :
  o t (loading_of env event) = Fulfilled a ->
  ToString (property (message_of event) (js "id")) = Thrown e ->
  run o t (handleEvent event env) = ([Logged (LogEvent event); Called (loading_of env event)], Rejected e).
Proof.
  intros H0 Hid. rewrite (handleEvent_media event env Hmedia Hsource).
  cbn [run]. fold (loading_of env event). rewrite H0.
  rewrite after_loading_fulfilled, Hid. reflexivity.
Qed.

Variable messageId : Text.
Hypothesis Hid : ToString (property (message_of event) (js "id")) = Normal messageId.

Lemma run_loading_fulfilled (a : FetchResponse) :
  o t (loading_of env event) = Fulfilled a ->
  run o t (handleEvent event env) =
  emit (Logged (LogEvent event))
    (emit (Called (loading_of env event))
       (emit (Called (content_call (LINE_CHANNEL_ACCESS_TOKEN env) messageId))
          (run o (S (S t)) (after_content env event (o (S t) (content_call (LINE_CHANNEL_ACCESS_TOKEN env) messageId)))))).
Proof.
  intros H0. rewrite (handleEvent_media event env Hmedia Hsource).
  cbn [run]. fold (loading_of env event). rewrite H0.
  rewrite after_loading_fulfilled, Hid. reflexivity.
Qed.

Lemma run_content_rejected (a : FetchResponse) (e : JSError) :
  o t (loading_of env event) = Fulfilled a ->
  o (S t) (content_call (LINE_CHANNEL_ACCESS_TOKEN env) messageId) = Rejected e ->
  run o t (handleEvent event env) = ([Logged (LogEvent event); Called (loading_of env event); Called (content_call (LINE_CHANNEL_ACCESS_TOKEN env) messageId)], Rejected e).
Proof.
  intros H0 H1. rewrite (run_loading_fulfilled a H0), H1. reflexivity.
Qed.

Lemma run_buffer_rejected (a resp : FetchResponse) (e : JSError) :
  o t (loading_of env event) = Fulfilled a ->
  o (S t) (content_call (LINE_CHANNEL_ACCESS_TOKEN env) messageId) = Fulfilled resp ->
  o (S (S t)) (arrayBuffer resp) = Rejected e ->
  run o t (handleEvent event env) =
  ([Logged (LogEvent event); Called (loading_of env event); Called (content_call (LINE_CHANNEL_ACCESS_TOKEN env) messageId); Called (arrayBuffer resp)], Rejected e).
Proof.
  intros H0 H1 H2. rewrite (run_loading_fulfilled a H0), H1.
  cbn [after_content settle bind run]. rewrite H2. reflexivity.
Qed.

Lemma run_convert_rejected (a resp : FetchResponse) (blob : Bytes) (e : JSError) :
  o t (loading_of env event) = Fulfilled a ->
  o (S t) (content_call (LINE_CHANNEL_ACCESS_TOKEN env) messageId) = Fulfilled resp ->
  o (S (S t)) (arrayBuffer resp) = Fulfilled blob ->
  o (S (S (S t))) (convert_call (ELEVENLABS_API_KEY env) blob) = Rejected e ->
  run o t (handleEvent event env) =
  ([Logged (LogEvent event); Called (loading_of env event); Called (content_call (LINE_CHANNEL_ACCESS_TOKEN env) messageId); Called (arrayBuffer resp);
    Called (convert_call (ELEVENLABS_API_KEY env) blob)], Rejected e).
Proof.
  intros H0 H1 H2 H3. rewrite (run_loading_fulfilled a H0), H1.
  cbn [after_content settle bind run]. rewrite H2.
  cbn [after_buffer settle bind run]. rewrite H3. reflexivity.
Qed.

Lemma run_convert_fulfilled (a resp : FetchResponse) (blob : Bytes)
      (result : TranscriptionResult) :
  o t (loading_of env event) = Fulfilled a ->
  o (S t) (content_call (LINE_CHANNEL_ACCESS_TOKEN env) messageId) = Fulfilled resp ->
  o (S (S t)) (arrayBuffer resp) = Fulfilled blob ->
  o (S (S (S t))) (convert_call (ELEVENLABS_API_KEY env) blob) = Fulfilled result ->
  run o t (handleEvent event env) =
  ([Logged (LogEvent event); Called (loading_of env event); Called (content_call (LINE_CHANNEL_ACCESS_TOKEN env) messageId); Called (arrayBuffer resp);
    Called (convert_call (ELEVENLABS_API_KEY env) blob);
    Called (reply_of env event [reply_text_of result])],
   o (S (S (S (S t))))
     (reply_of env event [reply_text_of result])).
Proof.
  intros H0 H1 H2 H3. rewrite (run_loading_fulfilled a H0), H1.
  cbn [after_content settle bind run]. rewrite H2.
  cbn [after_buffer settle bind run]. rewrite H3.
  cbn [after_convert settle bind]. rewrite run_replyText. reflexivity.
Qed.

End MediaRuns.

Lemma reply_text_of_text (result : TranscriptionResult) (tr : JSString) :
  (result_text result = Some tr /\ tr <> []) \/
  ((result_text result = None \/ result_text result = Some []) /\ tr = placeholder) ->
  reply_text_of result = js "[" ++ result_language_code result ++ js "]: " ++ tr.
Proof.
  unfold reply_text_of, transcription_of.
  intros [[H Hne]|[[H|H] ->]]; rewrite H; try reflexivity.
  destruct tr; [contradiction|reflexivity].
Qed.
(** C5, as amended.  An event other than [null], without a [message] or
    with a [message.type] that is neither "audio" nor "video", gets exactly
    one reply: a POST to the reply endpoint whose JSON body carries the
    reply token of the event and one text message, the fixed instruction.
    It is the only call of the run: no media is fetched and nothing is
    transcribed. *)
Theorem unsupported_event_single_reply (event : JSValue) (env : Env) (o : Oracle) (t : nat) :
  nullish event = false ->
  (message_of event = VUndefined \/
   (message_type event <> VString (js "audio") /\ message_type event <> VString (js "video"))) ->
  calls (fst (run o t (handleEvent event env))) =
    [fetch (UrlLiteral (js "https://api.line.me/v2/bot/message/reply"))
           (mkInit (Some (js "POST"))
                   [(js "Content-Type", js "application/json");
                    (js "Authorization", js "Bearer " ++ LINE_CHANNEL_ACCESS_TOKEN env)]
                   (Some (JSON_stringify
                            (VObject
                               [(js "replyToken", property event (js "replyToken"));
                                (js "messages",
                                 VArray
                                   [VObject
                                      [(js "type", VString (js "text"));
                                       (js "text",
                                        VString (js "Please send an audio or video message."))]])]))))] /\
  length (replies (fst (run o t (handleEvent event env)))) = 1%nat /\
  filter is_media_fetch (calls (fst (run o t (handleEvent event env)))) = [] /\
  filter is_transcription (calls (fst (run o t (handleEvent event env)))) = [].
Proof.
  intros Hn H. apply not_media_event in H.
  rewrite (handleEvent_unsupported event env Hn H).
  cbn [run]. rewrite run_replyText. repeat split; reflexivity.
Qed.

Lemma unsupported_event_single_reply_witness :
  calls (fst (run (world (Fulfilled (mkFetchResponse 200 [])) (Rejected (NetworkError [])))
                  0 (handleEvent text_event sample_env))) =
    [fetch (UrlLiteral (js "https://api.line.me/v2/bot/message/reply"))
           (mkInit (Some (js "POST"))
                   [(js "Content-Type", js "application/json");
                    (js "Authorization", js "Bearer channel-token")]
                   (Some (JSON_stringify
                            (VObject
                               [(js "replyToken", VString (js "r2"));
                                (js "messages",
                                 VArray
                                   [VObject
                                      [(js "type", VString (js "text"));
                                       (js "text",
                                        VString (js "Please send an audio or video message."))]])]))))] /\
  length (replies (fst (run (world (Fulfilled (mkFetchResponse 200 [])) (Rejected (NetworkError [])))
                            0 (handleEvent text_event sample_env)))) = 1%nat /\
  filter is_media_fetch
    (calls (fst (run (world (Fulfilled (mkFetchResponse 200 [])) (Rejected (NetworkError [])))
                     0 (handleEvent text_event sample_env)))) = [] /\
  filter is_transcription
    (calls (fst (run (world (Fulfilled (mkFetchResponse 200 [])) (Rejected (NetworkError [])))
                     0 (handleEvent text_event sample_env)))) = [].
Proof.
  apply (unsupported_event_single_reply text_event sample_env).
  - reflexivity.
  - right. split; intro H; vm_compute in H; discriminate H.
Defined.

(** C5, as the spec states it, fails: the event [null] has no [message], and
    its handler throws on [event.message] before any reply is sent. *)
Lemma null_event_gets_no_reply :
  message_of VNull = VUndefined /\
  run sample_world 0 (handleEvent VNull sample_env) =
    ([Logged (LogEvent VNull)],
     Rejected (TypeError (js "Cannot read properties of null (reading 'message')"))) /\
  replies (fst (run sample_world 0 (handleEvent VNull sample_env))) = [].
Proof. split; [|split]; reflexivity. Qed.

(** C6. When the transcription of an audio or video event succeeds, exactly
    one reply is sent: a POST to the reply endpoint whose JSON body carries
    the reply token of the event and one text message, whose text is
    "[" ++ languageCode ++ "]: " ++ t, where t is the text of the result, or
    the fixed placeholder when the result has an empty text or none.  The
    transcription is reached when [event.source] can be read, [message.id]
    can be converted to a string, and the loading call, the content request
    and the reading of the media are fulfilled. *)
Theorem transcript_single_reply (event : JSValue) (env : Env) (o : Oracle) (t : nat)
        (messageId : Text) (a resp : FetchResponse) (blob : Bytes)
        (result : TranscriptionResult) (tr : JSString) :
  (message_type event = VString (js "audio") \/ message_type event = VString (js "video")) ->
  nullish (property event (js "source")) = false ->
  ToString (property (message_of event) (js "id")) = Normal messageId ->
  o t (loading_call (LINE_CHANNEL_ACCESS_TOKEN env)
                    (property (property event (js "source")) (js "userId"))) = Fulfilled a ->
  o (S t) (content_call (LINE_CHANNEL_ACCESS_TOKEN env) messageId) = Fulfilled resp ->
  o (S (S t)) (arrayBuffer resp) = Fulfilled blob ->
  o (S (S (S t))) (convert_call (ELEVENLABS_API_KEY env) blob) = Fulfilled result ->
  ((result_text result = Some tr /\ tr <> []) \/
   ((result_text result = None \/ result_text result = Some []) /\
    tr = js "Could not transcribe the message.")) ->
  replies (fst (run o t (handleEvent event env))) =
    [fetch (UrlLiteral (js "https://api.line.me/v2/bot/message/reply"))
           (mkInit (Some (js "POST"))
                   [(js "Content-Type", js "application/json");
                    (js "Authorization", js "Bearer " ++ LINE_CHANNEL_ACCESS_TOKEN env)]
                   (Some (JSON_stringify
                            (VObject
                               [(js "replyToken", property event (js "replyToken"));
                                (js "messages",
                                 VArray
                                   [VObject
                                      [(js "type", VString (js "text"));
                                       (js "text",
                                        VString (js "[" ++ result_language_code result
                                                   ++ js "]: " ++ tr))]])]))))].
Proof.
  intros Hm Hs Hid H0 H1 H2 H3 Htr. apply is_media_event_iff in Hm.
  rewrite (run_convert_fulfilled env event o t Hm Hs messageId Hid a resp blob result H0 H1 H2 H3).
  rewrite (reply_text_of_text result tr Htr). reflexivity.
Qed.

Lemma transcript_single_reply_witness :
  replies (fst (run (world (Fulfilled (mkFetchResponse 200 []))
                           (Fulfilled (mkResult (Some (js "hello")) (js "en"))))
                    0 (handleEvent audio_event sample_env))) =
    [fetch (UrlLiteral (js "https://api.line.me/v2/bot/message/reply"))
           (mkInit (Some (js "POST"))
                   [(js "Content-Type", js "application/json");
                    (js "Authorization", js "Bearer channel-token")]
                   (Some (JSON_stringify
                            (VObject
                               [(js "replyToken", VString (js "r1"));
                                (js "messages",
                                 VArray
                                   [VObject
                                      [(js "type", VString (js "text"));
                                       (js "text", VString (js "[en]: hello"))]])]))))].
Proof.
  apply (transcript_single_reply audio_event sample_env
           (world (Fulfilled (mkFetchResponse 200 []))
                  (Fulfilled (mkResult (Some (js "hello")) (js "en"))))
           0 [Units (js "42")] (mkFetchResponse 200 []) (mkFetchResponse 200 [0x49; 0x44; 0x33])
           [0x49; 0x44; 0x33] (mkResult (Some (js "hello")) (js "en")) (js "hello")).
  - left. reflexivity.
  - reflexivity.
  - reflexivity.
  - reflexivity.
  - reflexivity.
  - reflexivity.
  - reflexivity.
  - left. split; [reflexivity | discriminate].
Defined.

Example empty_transcript_gets_placeholder :
  replies (fst (run (world (Fulfilled (mkFetchResponse 200 []))
                           (Fulfilled (mkResult (Some []) (js "en"))))
                    0 (handleEvent audio_event sample_env))) =
    [reply_call (js "channel-token") (VString (js "r1"))
                [js "[en]: Could not transcribe the message."]].
Proof. reflexivity. Qed.

(** The template literal of the content URL converts [message.id]: an id
    that cannot be converted ends the handler after the loading call. *)
Example unconvertible_message_id :
  ToString (VObject [(js "toString", VNumber (mkNumber false 1 0))]) =
    Thrown (TypeError (js "Cannot convert object to primitive value")) /\
  ToString (VArray [VNumber (mkNumber false 1 0); VNull; VArray [VBool true; VString (js "a")];
                    VObject []]) =
    Normal [NumberText (mkNumber false 1 0); Units (js ","); Units (js ","); Units (js "true");
            Units (js ","); Units (js "a"); Units (js ","); Units (js "[object Object]")] /\
  run sample_world 0
      (handleEvent
         (VObject [(js "replyToken", VString (js "r1"));
                   (js "source", VObject [(js "userId", VString (js "U1"))]);
                   (js "message",
                    VObject [(js "type", VString (js "audio"));
                             (js "id", VObject [(js "toString", VNumber (mkNumber false 1 0))])])])
         sample_env) =
    ([Logged (LogEvent
                (VObject [(js "replyToken", VString (js "r1"));
                          (js "source", VObject [(js "userId", VString (js "U1"))]);
                          (js "message",
                           VObject [(js "type", VString (js "audio"));
                                    (js "id",
                                     VObject [(js "toString", VNumber (mkNumber false 1 0))])])]));
      Called (loading_call (js "channel-token") (VString (js "U1")))],
     Rejected (TypeError (js "Cannot convert object to primitive value"))).
Proof. split; [|split]; reflexivity. Qed.

(** C7, as the code has it.  When the transcription call of an audio or video
    event is rejected, the handler is rejected with the same error and no
    reply is sent: the error text reaches nobody.  (The transcription call is
    reached when [message.id] can be converted to a string; when it cannot,
    the handler is rejected with the error of the conversion, and no reply
    is sent either.) *)
Theorem transcription_failure_sends_no_reply (event : JSValue) (env : Env) (o : Oracle)
        (t : nat) (a : FetchResponse) :
  (message_type event = VString (js "audio") \/ message_type event = VString (js "video")) ->
  nullish (property event (js "source")) = false ->
  o t (loading_call (LINE_CHANNEL_ACCESS_TOKEN env)
                    (property (property event (js "source")) (js "userId"))) = Fulfilled a ->
  (forall (messageId : Text) (resp : FetchResponse) (blob : Bytes) (e : JSError),
     ToString (property (message_of event) (js "id")) = Normal messageId ->
     o (S t) (content_call (LINE_CHANNEL_ACCESS_TOKEN env) messageId) = Fulfilled resp ->
     o (S (S t)) (arrayBuffer resp) = Fulfilled blob ->
     o (S (S (S t))) (convert_call (ELEVENLABS_API_KEY env) blob) = Rejected e ->
     snd (run o t (handleEvent event env)) = Rejected e /\
     replies (fst (run o t (handleEvent event env))) = []) /\
  (forall e : JSError,
     ToString (property (message_of event) (js "id")) = Thrown e ->
     snd (run o t (handleEvent event env)) = Rejected e /\
     replies (fst (run o t (handleEvent event env))) = []).
Proof.
  intros Hm Hs H0. apply is_media_event_iff in Hm. split.
  - intros messageId resp blob e Hid H1 H2 H3.
    rewrite (run_convert_rejected env event o t Hm Hs messageId Hid a resp blob e H0 H1 H2 H3).
    split; reflexivity.
  - intros e Hid. rewrite (run_conversion_thrown env event o t Hm Hs a e H0 Hid).
    split; reflexivity.
Qed.

Lemma transcription_failure_sends_no_reply_witness :
  snd (run (world (Fulfilled (mkFetchResponse 200 []))
                  (Rejected (ServiceError 429 (js "rate limited"))))
           0 (handleEvent audio_event sample_env))
    = Rejected (ServiceError 429 (js "rate limited")) /\
  replies (fst (run (world (Fulfilled (mkFetchResponse 200 []))
                           (Rejected (ServiceError 429 (js "rate limited"))))
                    0 (handleEvent audio_event sample_env))) = [].
Proof.
  apply (proj1 (transcription_failure_sends_no_reply audio_event sample_env
                  (world (Fulfilled (mkFetchResponse 200 []))
                         (Rejected (ServiceError 429 (js "rate limited"))))
                  0 (mkFetchResponse 200 []) (or_introl eq_refl) eq_refl eq_refl)
               [Units (js "42")] (mkFetchResponse 200 [0x49; 0x44; 0x33])
               [0x49; 0x44; 0x33] (ServiceError 429 (js "rate limited")));
    reflexivity.
Defined.

(** C8, as amended.  The response of the loading call is ignored: with two
    environments that both fulfil the loading call and answer every other
    call alike, the handler issues the same calls and settles the same way,
    whatever the two loading responses are.  A rejected loading call ends the
    handler at once: it is rejected with that error and nothing else is
    called. *)
Theorem loading_response_is_ignored (event : JSValue) (env : Env) (o1 o2 : Oracle) (t : nat) :
  (forall t' c, is_loading c = false -> o1 t' c = o2 t' c) ->
  (forall t' c, is_loading c = true ->
                (exists a, o1 t' c = Fulfilled a) /\ (exists b, o2 t' c = Fulfilled b)) ->
  run o1 t (handleEvent event env) = run o2 t (handleEvent event env) /\
  ((message_type event = VString (js "audio") \/ message_type event = VString (js "video")) ->
   nullish (property event (js "source")) = false ->
   forall o e,
     o t (loading_call (LINE_CHANNEL_ACCESS_TOKEN env)
                       (property (property event (js "source")) (js "userId"))) = Rejected e ->
     run o t (handleEvent event env) =
     ([Logged (LogEvent event);
       Called (loading_call (LINE_CHANNEL_ACCESS_TOKEN env)
                            (property (property event (js "source")) (js "userId")))],
      Rejected e)).
Proof.
  intros Hsame Hload. split.
  - destruct (nullish event) eqn:Hn.
    { destruct (handleEvent_nullish event env Hn) as [msg ->]. reflexivity. }
    destruct (is_media_event event) eqn:Hm.
    2:{ rewrite (handleEvent_unsupported event env Hn Hm). cbn [run].
        rewrite !run_replyText. rewrite Hsame by reflexivity. reflexivity. }
    destruct (nullish (property event (js "source"))) eqn:Hs.
    { destruct (handleEvent_without_source event env Hm Hs) as [msg ->]. reflexivity. }
    rewrite (handleEvent_media event env Hm Hs). cbn [run].
    destruct (Hload t (loading_call (LINE_CHANNEL_ACCESS_TOKEN env)
                         (property (property event (js "source")) (js "userId"))) eq_refl)
      as [[a1 ->] [a2 ->]].
    rewrite !after_loading_fulfilled.
    destruct (ToString (property (message_of event) (js "id"))) as [messageId|e];
      [|reflexivity].
    cbn [run].
    rewrite (Hsame (S t) (content_call (LINE_CHANNEL_ACCESS_TOKEN env) messageId) eq_refl).
    destruct (o2 (S t) (content_call (LINE_CHANNEL_ACCESS_TOKEN env) messageId)) as [resp|e];
      [|reflexivity].
    cbn [after_content settle bind run].
    rewrite (Hsame (S (S t)) (arrayBuffer resp) eq_refl).
    destruct (o2 (S (S t)) (arrayBuffer resp)) as [blob|e]; [|reflexivity].
    cbn [after_buffer settle bind run].
    rewrite (Hsame (S (S (S t))) (convert_call (ELEVENLABS_API_KEY env) blob) eq_refl).
    destruct (o2 (S (S (S t))) (convert_call (ELEVENLABS_API_KEY env) blob)) as [result|e];
      [|reflexivity].
    cbn [after_convert settle bind]. rewrite !run_replyText.
    rewrite Hsame by reflexivity. reflexivity.
  - intros Hm Hs o e He. apply is_media_event_iff in Hm.
    apply (run_loading_rejected env event o t Hm Hs e He).
Qed.

Lemma answer_loading_other (r : Settled FetchResponse) (o : Oracle) (t : nat) (c : Call) :
  is_loading c = false -> answer_loading r o t c = o t c.
Proof.
  intros H. destruct c as [url init| |]; try reflexivity.
  unfold answer_loading. rewrite H. reflexivity.
Qed.

Lemma answer_loading_loading (r : FetchResponse) (o : Oracle) (t : nat) (c : Call) :
  is_loading c = true -> exists a, answer_loading (Fulfilled r) o t c = Fulfilled a.
Proof.
  intros H. destruct c as [url init| |]; try discriminate H.
  unfold answer_loading. rewrite H. exists r. reflexivity.
Qed.

Lemma loading_response_is_ignored_witness :
  run (answer_loading (Fulfilled (mkFetchResponse 200 []))
                      (world (Fulfilled (mkFetchResponse 200 []))
                             (Fulfilled (mkResult (Some (js "hello")) (js "en")))))
      0 (handleEvent audio_event sample_env)
  = run (answer_loading (Fulfilled (mkFetchResponse 500 (js "down")))
                        (world (Fulfilled (mkFetchResponse 200 []))
                               (Fulfilled (mkResult (Some (js "hello")) (js "en")))))
        0 (handleEvent audio_event sample_env).
Proof.
  apply (loading_response_is_ignored audio_event sample_env
           (answer_loading (Fulfilled (mkFetchResponse 200 []))
                           (world (Fulfilled (mkFetchResponse 200 []))
                                  (Fulfilled (mkResult (Some (js "hello")) (js "en")))))
           (answer_loading (Fulfilled (mkFetchResponse 500 (js "down")))
                           (world (Fulfilled (mkFetchResponse 200 []))
                                  (Fulfilled (mkResult (Some (js "hello")) (js "en")))))
           0).
  - intros t' c H. rewrite !answer_loading_other by exact H. reflexivity.
  - intros t' c H. split; apply answer_loading_loading; exact H.
Defined.

(** C8, as the spec states it, fails: a loading call that is rejected ends
    the handler before the media is fetched, transcribed or answered, while
    the same event is answered when the loading call succeeds. *)
Lemma rejected_loading_call_aborts :
  run (world (Rejected (NetworkError (js "connection lost")))
             (Fulfilled (mkResult (Some (js "hello")) (js "en"))))
      0 (handleEvent audio_event sample_env)
  = ([Logged (LogEvent audio_event);
      Called (loading_call (js "channel-token") (VString (js "U1")))],
     Rejected (NetworkError (js "connection lost")))
  /\
  replies (fst (run (world (Fulfilled (mkFetchResponse 200 []))
                           (Fulfilled (mkResult (Some (js "hello")) (js "en"))))
                    0 (handleEvent audio_event sample_env)))
  = [reply_call (js "channel-token") (VString (js "r1")) [js "[en]: hello"]].
Proof. split; reflexivity. Qed.

(** C9. Whatever the environment answers, a run of the handler sends at most
    one reply, and that reply carries the reply token of the event. *)
Theorem at_most_one_reply (event : JSValue) (env : Env) (o : Oracle) (t : nat) :
  (length (replies (fst (run o t (handleEvent event env)))) <= 1)%nat /\
  forall c, In c (replies (fst (run o t (handleEvent event env)))) ->
            exists messages,
              c = reply_call (LINE_CHANNEL_ACCESS_TOKEN env)
                             (property event (js "replyToken")) messages.
Proof.
  assert (Hnone : forall es : list Effect, replies es = [] ->
            (length (replies es) <= 1)%nat /\
            forall c, In c (replies es) ->
              exists messages,
                c = reply_call (LINE_CHANNEL_ACCESS_TOKEN env)
                               (property event (js "replyToken")) messages).
  { intros es ->. split; [simpl; lia | intros c []]. }
  assert (Hone : forall (es : list Effect) messages,
            replies es = [reply_call (LINE_CHANNEL_ACCESS_TOKEN env)
                                     (property event (js "replyToken")) messages] ->
            (length (replies es) <= 1)%nat /\
            forall c, In c (replies es) ->
              exists messages,
                c = reply_call (LINE_CHANNEL_ACCESS_TOKEN env)
                               (property event (js "replyToken")) messages).
  { intros es messages ->. split; [simpl; lia|].
    intros c [<-|[]]. exists messages. reflexivity. }
  destruct (nullish event) eqn:Hn.
  { destruct (handleEvent_nullish event env Hn) as [msg ->]. apply Hnone. reflexivity. }
  destruct (is_media_event event) eqn:Hm.
  2:{ rewrite (handleEvent_unsupported event env Hn Hm). cbn [run].
      rewrite run_replyText. apply (Hone _ [instruction]). reflexivity. }
  destruct (nullish (property event (js "source"))) eqn:Hs.
  { destruct (handleEvent_without_source event env Hm Hs) as [msg ->].
    apply Hnone. reflexivity. }
  destruct (o t (loading_call (LINE_CHANNEL_ACCESS_TOKEN env)
                   (property (property event (js "source")) (js "userId")))) as [a|e] eqn:H0.
  2:{ rewrite (run_loading_rejected env event o t Hm Hs e H0). apply Hnone. reflexivity. }
  destruct (ToString (property (message_of event) (js "id"))) as [messageId|e] eqn:Hid.
  2:{ rewrite (run_conversion_thrown env event o t Hm Hs a e H0 Hid). apply Hnone. reflexivity. }
  destruct (o (S t) (content_call (LINE_CHANNEL_ACCESS_TOKEN env) messageId)) as [resp|e] eqn:H1.
  2:{ rewrite (run_content_rejected env event o t Hm Hs messageId Hid a e H0 H1).
      apply Hnone. reflexivity. }
  destruct (o (S (S t)) (arrayBuffer resp)) as [blob|e] eqn:H2.
  2:{ rewrite (run_buffer_rejected env event o t Hm Hs messageId Hid a resp e H0 H1 H2).
      apply Hnone. reflexivity. }
  destruct (o (S (S (S t))) (convert_call (ELEVENLABS_API_KEY env) blob)) as [result|e] eqn:H3.
  2:{ rewrite (run_convert_rejected env event o t Hm Hs messageId Hid a resp blob e H0 H1 H2 H3).
      apply Hnone. reflexivity. }
  rewrite (run_convert_fulfilled env event o t Hm Hs messageId Hid a resp blob result H0 H1 H2 H3).
  apply (Hone _ [reply_text_of result]). reflexivity.
Qed.

(** C10. On an audio or video event the handler faults exactly when the
    event has no [source]: reading [event.source.userId] throws a TypeError,
    the handler is rejected and no call, hence no reply, is made. *)
Theorem media_event_without_source_faults (event : JSValue) (env : Env) (o : Oracle) (t : nat) :
  (message_type event = VString (js "audio") \/ message_type event = VString (js "video")) ->
  (nullish (property event (js "source")) = true <->
   exists msg, run o t (handleEvent event env) =
               ([Logged (LogEvent event)], Rejected (TypeError msg))).
Proof.
  intros Hm. apply is_media_event_iff in Hm. split.
  - intros Hs. destruct (handleEvent_without_source event env Hm Hs) as [msg ->].
    exists msg. reflexivity.
  - intros [msg H]. destruct (nullish (property event (js "source"))) eqn:Hs; [reflexivity|].
    rewrite (handleEvent_media event env Hm Hs) in H. cbn [run emit fst snd] in H.
    discriminate H.
Qed.

Lemma media_event_without_source_faults_witness :
  exists msg, run (world (Fulfilled (mkFetchResponse 200 []))
                         (Fulfilled (mkResult (Some (js "hello")) (js "en"))))
                  0 (handleEvent audio_event_without_source sample_env) =
              ([Logged (LogEvent audio_event_without_source)], Rejected (TypeError msg)).
Proof.
  apply (media_event_without_source_faults audio_event_without_source sample_env).
  - left. reflexivity.
  - reflexivity.
Defined.

(* ===================================================================== *)
(** ** Pools of handlers *)
(* ===================================================================== *)

Lemma bounded_weaken (A : Type) (n : nat) (p : Prog A) :
  bounded n p -> forall m, (n <= m)%nat -> bounded m p.
Proof.
  induction 1 as [n a|n e|n c k Hk IH]; intros m Hm.
  - constructor.
  - constructor.
  - destruct m as [|m]; [lia|]. constructor. intro r. apply IH. lia.
Qed.

Lemma bounded_settle (A : Type) (n : nat) (r : Settled A) : bounded n (settle r).
Proof. destruct r; constructor. Qed.

Lemma bounded_replyText (n : nat) (token : JSString) (replyToken : JSValue)
      (messages : list JSString) :
  bounded (S n) (replyText token replyToken messages).
Proof. constructor. intro r. apply bounded_settle. Qed.

Lemma bounded_after_convert (env : Env) (event : JSValue) (r : Settled TranscriptionResult) :
  bounded 1 (after_convert env event r).
Proof. destruct r; cbn; [apply bounded_replyText | constructor]. Qed.

Lemma bounded_after_buffer (env : Env) (event : JSValue) (r : Settled Bytes) :
  bounded 2 (after_buffer env event r).
Proof.
  destruct r; cbn; constructor. apply bounded_after_convert.
Qed.

Lemma bounded_after_content (env : Env) (event : JSValue) (r : Settled FetchResponse) :
  bounded 3 (after_content env event r).
Proof.
  destruct r; cbn; constructor. apply bounded_after_buffer.
Qed.

Lemma bounded_after_loading (env : Env) (event : JSValue) (r : Settled FetchResponse) :
  bounded 4 (after_loading env event r).
Proof.
  destruct r as [a|e]; [|constructor]. rewrite after_loading_fulfilled.
  destruct (ToString (property (message_of event) (js "id"))); constructor.
  apply bounded_after_content.
Qed.

(** Every handler writes its event to the console, once, and then suspends at
    most five times. *)
Lemma handleEvent_shape (event : JSValue) (env : Env) :
  exists p, handleEvent event env = ConsoleLog (LogEvent event) p /\ bounded handler_calls p.
Proof.
  destruct (nullish event) eqn:Hn.
  { destruct (handleEvent_nullish event env Hn) as [msg ->].
    eexists. split; [reflexivity | constructor]. }
  destruct (is_media_event event) eqn:Hm.
  2:{ rewrite (handleEvent_unsupported event env Hn Hm).
      eexists. split; [reflexivity | apply bounded_replyText]. }
  destruct (nullish (property event (js "source"))) eqn:Hs.
  { destruct (handleEvent_without_source event env Hm Hs) as [msg ->].
    eexists. split; [reflexivity | constructor]. }
  rewrite (handleEvent_media event env Hm Hs).
  eexists. split; [reflexivity|]. constructor. apply bounded_after_loading.
Qed.

Lemma logged_events_app (xs ys : list Effect) :
  logged_events (xs ++ ys) = logged_events xs ++ logged_events ys.
Proof. unfold logged_events. apply flat_map_app. Qed.

Lemma start_bounded (A : Type) (n : nat) (p : Prog A) :
  bounded n p -> logged_events (fst (start p)) = [] /\ task_bounded n (snd (start p)).
Proof.
  intros H. destruct H as [n a|n e|n c k Hk]; cbn; split; auto.
  exists n. auto.
Qed.

Lemma start_handleEvent (event : JSValue) (env : Env) :
  logged_events (fst (start (handleEvent event env))) = [event] /\
  task_bounded handler_calls (snd (start (handleEvent event env))).
Proof.
  destruct (handleEvent_shape event env) as [p [-> Hp]].
  destruct (start_bounded _ _ _ Hp) as [Hl Hb].
  cbn [start emit fst snd].
  change (logged_events (Logged (LogEvent event) :: fst (start p)))
    with (event :: logged_events (fst (start p))).
  rewrite Hl. auto.
Qed.

Lemma start_all_handlers (env : Env) (events : list JSValue) :
  logged_events (fst (start_all (map (fun event => handleEvent event env) events))) = events /\
  Forall (task_bounded handler_calls)
         (snd (start_all (map (fun event => handleEvent event env) events))) /\
  length (snd (start_all (map (fun event => handleEvent event env) events))) = length events.
Proof.
  induction events as [|event events [IHl [IHb IHn]]]; cbn [map start_all fst snd length].
  - auto.
  - destruct (start_handleEvent event env) as [Hl Hb].
    rewrite logged_events_app, Hl, IHl, IHn. auto.
Qed.

Lemma task_bounded_mono (A : Type) (n m : nat) (task : Task A) :
  task_bounded n task -> (n <= m)%nat -> task_bounded m task.
Proof.
  destruct task as [c k|s]; cbn; auto.
  intros [n' [-> Hk]] Hm. destruct m as [|m]; [lia|].
  exists m. split; [reflexivity|]. intro r. apply (bounded_weaken _ _ _ (Hk r)). lia.
Qed.

Lemma resume_quiet (A : Type) (n : nat) (o : Oracle) (t i : nat) (pool : list (Task A)) :
  Forall (task_bounded n) pool ->
  logged_events (fst (resume o t i pool)) = [] /\
  Forall (task_bounded n) (snd (resume o t i pool)) /\
  length (snd (resume o t i pool)) = length pool.
Proof.
  intros H. revert i. induction H as [|task pool Htask Hpool IH]; intros i.
  - destruct i; cbn; auto.
  - destruct i as [|i].
    + destruct task as [c k|s]; cbn [resume fst snd length].
      * destruct Htask as [m [-> Hk]].
        destruct (start_bounded _ _ _ (Hk (o t c))) as [Hl Hb].
        rewrite Hl. repeat split; auto.
        constructor; [|assumption]. apply (task_bounded_mono _ _ _ _ Hb). lia.
      * repeat split; auto.
    + destruct (IH i) as [Hl [Hb Hn]].
      destruct task as [c k|s]; cbn [resume fst snd length]; rewrite Hl, Hn;
        repeat split; auto.
Qed.

Lemma resume_length (A : Type) (o : Oracle) (t i : nat) (pool : list (Task A)) :
  length (snd (resume o t i pool)) = length pool.
Proof.
  revert i. induction pool as [|task pool IH]; intros i.
  - destruct i; reflexivity.
  - destruct i as [|i]; destruct task as [c k|s]; cbn; try rewrite IH; reflexivity.
Qed.

Lemma await_all_outcome (A : Type) (o : Oracle) (sched : list nat) (t : nat)
      (pool : list (Task A)) :
  waited_outcome (await_all o sched t pool) = Promise_all (waited_pool (await_all o sched t pool)) /\
  length (waited_pool (await_all o sched t pool)) = length pool.
Proof.
  revert t pool. induction sched as [|i sched IH]; intros t pool; cbn.
  - destruct (Promise_all pool) eqn:E; cbn; rewrite E; auto.
  - destruct (Promise_all pool) eqn:E; cbn.
    + rewrite E. auto.
    + destruct (IH (S t) (snd (resume o t i pool))) as [Ho Hn].
      rewrite Hn, resume_length. auto.
Qed.

Lemma await_all_quiet (A : Type) (n : nat) (o : Oracle) (sched : list nat) (t : nat)
      (pool : list (Task A)) :
  Forall (task_bounded n) pool ->
  logged_events (waited_effects (await_all o sched t pool)) = [].
Proof.
  revert t pool. induction sched as [|i sched IH]; intros t pool H; cbn.
  - destruct (Promise_all pool); reflexivity.
  - destruct (Promise_all pool); [reflexivity|]. cbn.
    destruct (resume_quiet _ n o t i pool H) as [Hl [Hb _]].
    rewrite logged_events_app, Hl, (IH _ _ Hb). reflexivity.
Qed.

Lemma Promise_all_fulfilled (A : Type) (pool : list (Task A)) (l : list A) :
  Promise_all pool = Some (Fulfilled l) <-> pool = map (fun a => Done (Fulfilled a)) l.
Proof.
  revert l. induction pool as [|task pool IH]; intros l; cbn.
  - split.
    + intros H. injection H as <-. reflexivity.
    + destruct l; [reflexivity | discriminate].
  - destruct task as [c k|[a|e]].
    + split.
      * destruct (Promise_all pool) as [[?|?]|]; discriminate.
      * destruct l; discriminate.
    + split.
      * destruct (Promise_all pool) as [[l'|?]|] eqn:E; try discriminate.
        intros H. injection H as <-. cbn. f_equal. apply IH. reflexivity.
      * destruct l as [|a' l']; [discriminate|]. cbn. intros H. injection H as <- ->.
        rewrite (proj2 (IH l') eq_refl). reflexivity.
    + split; [discriminate|]. destruct l; discriminate.
Qed.

Lemma Promise_all_rejected (A : Type) (pool : list (Task A)) (e : JSError) :
  Promise_all pool = Some (Rejected e) -> In (Done (Rejected e)) pool.
Proof.
  induction pool as [|task pool IH]; cbn; [discriminate|].
  destruct task as [c k|[a|e']].
  - destruct (Promise_all pool) as [[?|?]|]; try discriminate.
    intros H. injection H as <-. right. apply IH. reflexivity.
  - destruct (Promise_all pool) as [[?|?]|]; try discriminate.
    intros H. injection H as <-. right. apply IH. reflexivity.
  - intros H. injection H as <-. left. reflexivity.
Qed.


Lemma Promise_all_pending (A : Type) (pool : list (Task A)) :
  Promise_all pool = None -> exists c k, In (Waiting c k) pool.
Proof.
  induction pool as [|task pool IH]; cbn; [discriminate|].
  destruct task as [c k|[a|e]].
  - intros _. exists c, k. left. reflexivity.
  - destruct (Promise_all pool) as [[?|?]|]; try discriminate.
    intros _. destruct (IH eq_refl) as [c [k H]]. exists c, k. right. exact H.
  - discriminate.
Qed.

Lemma Promise_all_waiting (A : Type) (pool : list (Task A)) (c : Call)
      (k : Settled (Answer c) -> Prog A) (l : list A) :
  In (Waiting c k) pool -> Promise_all pool <> Some (Fulfilled l).
Proof.
  intros Hin E. apply Promise_all_fulfilled in E. subst pool.
  apply in_map_iff in Hin. destruct Hin as [a [H _]]. discriminate H.
Qed.

(** *** Every schedule that goes round all tasks settles the pool *)

Lemma await_all_pending (A : Type) (o : Oracle) (sched : list nat) (t : nat)
      (pool : list (Task A)) :
  waited_outcome (await_all o sched t pool) = None ->
  waited_pool (await_all o sched t pool) = resume_all o sched t pool.
Proof.
  revert t pool. induction sched as [|i sched IH]; intros t pool; cbn.
  - destruct (Promise_all pool); [discriminate | reflexivity].
  - destruct (Promise_all pool); [discriminate|]. cbn. apply IH.
Qed.

Lemma resume_all_app (A : Type) (o : Oracle) (s1 s2 : list nat) (t : nat) (pool : list (Task A)) :
  resume_all o (s1 ++ s2) t pool = resume_all o s2 (length s1 + t) (resume_all o s1 t pool).
Proof.
  revert t pool. induction s1 as [|i s1 IH]; intros t pool; cbn.
  - reflexivity.
  - rewrite IH. f_equal. lia.
Qed.

Lemma resume_at (A : Type) (o : Oracle) (t : nat) (pre : list (Task A)) (task : Task A)
      (post : list (Task A)) :
  snd (resume o t (length pre) (pre ++ task :: post)) =
  pre ++ match task with
         | Waiting c k => snd (start (k (o t c)))
         | Done s => Done s
         end :: post.
Proof.
  induction pre as [|x pre IH]; cbn.
  - destruct task; reflexivity.
  - rewrite IH. destruct x; reflexivity.
Qed.

Lemma resume_until_done (A : Type) (o : Oracle) (n : nat) :
  forall (t : nat) (pre : list (Task A)) (task : Task A) (post : list (Task A)),
  task_bounded n task ->
  exists task', is_done task' /\
    resume_all o (repeat (length pre) n) t (pre ++ task :: post) = pre ++ task' :: post.
Proof.
  induction n as [|n IH]; intros t pre task post Hb.
  - exists task. split; [|reflexivity].
    destruct task as [c k|s]; cbn; auto. destruct Hb as [m [E _]]. discriminate E.
  - cbn [repeat resume_all]. rewrite resume_at.
    apply IH. destruct task as [c k|s]; cbn; auto.
    destruct Hb as [m [E Hk]]. injection E as ->.
    apply start_bounded. apply Hk.
Qed.

Lemma complete_schedule_settles (A : Type) (o : Oracle) :
  forall (post pre : list (Task A)) (t : nat),
  Forall is_done pre ->
  Forall (task_bounded handler_calls) post ->
  Forall is_done
    (resume_all o (flat_map (fun i => repeat i handler_calls) (seq (length pre) (length post)))
                t (pre ++ post)).
Proof.
  induction post as [|task post IH]; intros pre t Hpre Hpost.
  - cbn. rewrite app_nil_r. exact Hpre.
  - inversion Hpost as [|? ? Htask Hpost']; subst.
    cbn [length seq flat_map]. rewrite resume_all_app.
    destruct (resume_until_done A o handler_calls t pre task post Htask) as [task' [Hd ->]].
    replace (pre ++ task' :: post) with ((pre ++ [task']) ++ post)
      by (rewrite <- app_assoc; reflexivity).
    replace (S (length pre)) with (length (pre ++ [task']))
      by (rewrite length_app; cbn; lia).
    apply IH; [|exact Hpost'].
    apply Forall_app. split; [exact Hpre|]. constructor; [exact Hd | constructor].
Qed.

Lemma all_done_settled (A : Type) (pool : list (Task A)) :
  Forall is_done pool -> Promise_all pool <> None.
Proof.
  intros H E. destruct (Promise_all_pending _ pool E) as [c [k Hin]].
  rewrite Forall_forall in H. apply (H _ Hin).
Qed.

(** With the complete schedule the wait for the handlers always ends. *)
Lemma dispatch_settles (env : Env) (events : list JSValue) (o : Oracle) :
  waited_outcome (dispatch env events o (complete_schedule (length events))) <> None.
Proof.
  unfold dispatch. cbn [waited_outcome].
  destruct (start_all_handlers env events) as [_ [Hb Hn]].
  set (pool := snd (start_all (map (fun event => handleEvent event env) events))) in *.
  intros E.
  destruct (await_all_outcome _ o (complete_schedule (length events)) 0 pool) as [Ho _].
  rewrite (await_all_pending _ _ _ _ _ E) in Ho. rewrite E in Ho.
  symmetry in Ho. revert Ho. apply all_done_settled.
  unfold complete_schedule. rewrite <- Hn.
  apply (complete_schedule_settles _ o pool [] 0); [constructor | exact Hb].
Qed.

(* ===================================================================== *)
(** ** The signature verifier *)
(* ===================================================================== *)

Lemma utf8_of_code_point_nonempty (cp : Z) : TextEncoder.utf8_of_code_point cp <> [].
Proof.
  unfold TextEncoder.utf8_of_code_point.
  destruct (cp <? 0x80); [discriminate|].
  destruct (cp <? 0x800); [discriminate|].
  destruct (cp <? 0x10000); discriminate.
Qed.

Lemma app_nonempty (A : Type) (xs ys : list A) : xs <> [] -> xs ++ ys <> [].
Proof. destruct xs; [contradiction | discriminate]. Qed.

(** Only the empty string has an empty encoding. *)
Lemma encode_nonempty (s : JSString) : s <> [] -> TextEncoder.encode s <> [].
Proof.
  destruct s as [|c rest]; [contradiction|]. intros _. cbn [TextEncoder.encode].
  destruct (TextEncoder.is_high_surrogate c).
  - destruct rest as [|d rest']; [apply utf8_of_code_point_nonempty|].
    destruct (TextEncoder.is_low_surrogate d);
      apply app_nonempty, utf8_of_code_point_nonempty.
  - destruct (TextEncoder.is_low_surrogate c);
      apply app_nonempty, utf8_of_code_point_nonempty.
Qed.

Lemma validateSignature_empty (body signature : JSString) :
  validateSignature [] body signature = Rejected DataError.
Proof. reflexivity. Qed.

Lemma validateSignature_nonempty (secret body signature : JSString) :
  secret <> [] ->
  validateSignature secret body signature =
  Fulfilled (JSString_eqb (expected_signature secret body) signature).
Proof.
  intros H. unfold validateSignature, expected_signature.
  pose proof (encode_nonempty secret H) as Hk.
  destruct (TextEncoder.encode secret) as [|k ks]; [contradiction|].
  cbn [subtle_importKey subtle_sign]. reflexivity.
Qed.

Lemma Fulfilled_inj (A : Type) (a b : A) : Fulfilled a = Fulfilled b -> a = b.
Proof. intros H. injection H as H. exact H. Qed.

Lemma Fulfilled_inj_option (A : Type) (a b : A) :
  Some (Fulfilled a) = Some (Fulfilled b) -> a = b.
Proof. intros H. injection H as H. exact H. Qed.

Lemma validateSignature_settled (secret body signature : JSString) (verdict : bool) :
  validateSignature secret body signature = Fulfilled verdict -> secret <> [].
Proof. intros H E. subst secret. discriminate H. Qed.

Lemma validateSignature_true (secret body signature : JSString) :
  validateSignature secret body signature = Fulfilled true <->
  secret <> [] /\ signature = expected_signature secret body.
Proof.
  split.
  - intros H. pose proof (validateSignature_settled _ _ _ _ H) as Hs. split; [exact Hs|].
    rewrite (validateSignature_nonempty _ _ _ Hs) in H. apply Fulfilled_inj in H.
    apply JSString_eqb_eq in H. symmetry. exact H.
  - intros [Hs ->]. rewrite (validateSignature_nonempty _ _ _ Hs).
    rewrite JSString_eqb_refl. reflexivity.
Qed.

Lemma validateSignature_false (secret body signature : JSString) :
  validateSignature secret body signature = Fulfilled false <->
  secret <> [] /\ signature <> expected_signature secret body.
Proof.
  split.
  - intros H. pose proof (validateSignature_settled _ _ _ _ H) as Hs. split; [exact Hs|].
    rewrite (validateSignature_nonempty _ _ _ Hs) in H. apply Fulfilled_inj in H.
    apply JSString_eqb_neq in H. intros E. apply H. symmetry. exact E.
  - intros [Hs Hne]. rewrite (validateSignature_nonempty _ _ _ Hs). f_equal.
    apply JSString_eqb_neq. intros E. apply Hne. symmetry. exact E.
Qed.

Lemma expected_signature_eq (secret body secret' body' : JSString) :
  expected_signature secret' body' = expected_signature secret body <->
  HMAC.hmac_sha256 (TextEncoder.encode secret') (TextEncoder.encode body') =
  HMAC.hmac_sha256 (TextEncoder.encode secret) (TextEncoder.encode body).
Proof.
  unfold expected_signature, btoa_of_bytes. split.
  - apply base64_injective; apply hmac_bytes.
  - intros ->. reflexivity.
Qed.

Lemma validateSignature_same_encoding (secret body secret' body' signature : JSString) :
  TextEncoder.encode secret' = TextEncoder.encode secret ->
  TextEncoder.encode body' = TextEncoder.encode body ->
  validateSignature secret' body' signature = validateSignature secret body signature.
Proof.
  intros Hs Hb. unfold validateSignature. rewrite Hs, Hb. reflexivity.
Qed.

Lemma signature_length (key msg : Bytes) :
  length (Base64.encode (HMAC.hmac_sha256 key msg)) = 44%nat.
Proof.
  unfold HMAC.hmac_sha256, SHA256.sha256.
  generalize (fold_left SHA256.compress
                (SHA256.blocks
                   (SHA256.words
                      (SHA256.pad
                         (HMAC.xor_with 92 (HMAC.key_block key) ++
                          SHA256.digest_bytes
                            (fold_left SHA256.compress
                               (SHA256.blocks
                                  (SHA256.words
                                     (SHA256.pad
                                        (HMAC.xor_with 54 (HMAC.key_block key) ++ msg))))
                               SHA256.H0)))))
                SHA256.H0).
  intros st. reflexivity.
Qed.

Lemma expected_signature_length (secret body : JSString) :
  length (expected_signature secret body) = 44%nat.
Proof. apply signature_length. Qed.

Lemma encode_ascii (s : JSString) : Forall is_ascii s -> TextEncoder.encode s = s.
Proof.
  induction 1 as [|c s Hc Hs IH]; [reflexivity|].
  unfold is_ascii in Hc. cbn [TextEncoder.encode].
  unfold TextEncoder.is_high_surrogate, TextEncoder.is_low_surrogate.
  replace (0xD800 <=? c) with false by (symmetry; apply Z.leb_gt; lia).
  replace (0xDC00 <=? c) with false by (symmetry; apply Z.leb_gt; lia).
  cbn [andb]. unfold TextEncoder.utf8_of_code_point.
  replace (c <? 0x80) with true by (symmetry; apply Z.ltb_lt; lia).
  rewrite IH. reflexivity.
Qed.

(** A key shorter than the block is filled with zeros: the key followed by
    a zero byte has the same key block, hence the same tags. *)
Lemma key_block_zero (key : Bytes) :
  (length key < HMAC.block_size)%nat -> HMAC.key_block (key ++ [0]) = HMAC.key_block key.
Proof.
  unfold HMAC.key_block, HMAC.block_size. intros H.
  rewrite length_app. cbn [length].
  replace (64 <? length key + 1)%nat with false by (symmetry; apply Nat.ltb_ge; lia).
  replace (64 <? length key)%nat with false by (symmetry; apply Nat.ltb_ge; lia).
  rewrite length_app. cbn [length].
  replace (64 - length key)%nat with (S (64 - (length key + 1))) by lia.
  rewrite <- app_assoc. reflexivity.
Qed.

Lemma hmac_key_zero (key msg : Bytes) :
  (length key < HMAC.block_size)%nat ->
  HMAC.hmac_sha256 (key ++ [0]) msg = HMAC.hmac_sha256 key msg.
Proof. intros H. unfold HMAC.hmac_sha256. rewrite (key_block_zero key H). reflexivity. Qed.

Lemma validateSignature_zero_padding (secret body signature : JSString) :
  secret <> [] -> Forall is_ascii secret -> (length secret < 64)%nat ->
  validateSignature (secret ++ [0]) body signature = validateSignature secret body signature.
Proof.
  intros Hs Ha Hlen.
  assert (Ha' : Forall is_ascii (secret ++ [0])).
  { apply Forall_app. split; [exact Ha|]. constructor; [unfold is_ascii; lia | constructor]. }
  assert (Hs' : secret ++ [0] <> []) by (destruct secret; discriminate).
  rewrite (validateSignature_nonempty _ _ _ Hs), (validateSignature_nonempty _ _ _ Hs').
  unfold expected_signature. rewrite (encode_ascii _ Ha), (encode_ascii _ Ha').
  rewrite (hmac_key_zero secret (TextEncoder.encode body) Hlen). reflexivity.
Qed.

(** C1, as amended.  For a secret that is not empty, [validateSignature] is
    fulfilled with true exactly when the provided signature is the base64
    text of the HMAC-SHA256 tag of the UTF-8 encoding of the body under the
    UTF-8 encoding of the secret, and with false otherwise; for the empty
    secret it is rejected with a DataError, whatever the signature.  Once a
    signature is accepted, it is refused for another secret and body
    exactly when their tag is another one; the tag is the same, and the
    signature still accepted, when the byte zero is added to an ASCII secret
    of fewer than 64 bytes. *)
Theorem validateSignature_iff_tag (secret body providedSignature : JSString) :
  (secret <> [] ->
   (validateSignature secret body providedSignature = Fulfilled true <->
    providedSignature =
    Base64.encode (HMAC.hmac_sha256 (TextEncoder.encode secret) (TextEncoder.encode body))) /\
   (validateSignature secret body providedSignature = Fulfilled false <->
    providedSignature <>
    Base64.encode (HMAC.hmac_sha256 (TextEncoder.encode secret) (TextEncoder.encode body)))) /\
  (secret = [] -> validateSignature secret body providedSignature = Rejected DataError) /\
  (forall secret' body' : JSString,
     secret' <> [] ->
     validateSignature secret body providedSignature = Fulfilled true ->
     (validateSignature secret' body' providedSignature = Fulfilled false <->
      HMAC.hmac_sha256 (TextEncoder.encode secret') (TextEncoder.encode body') <>
      HMAC.hmac_sha256 (TextEncoder.encode secret) (TextEncoder.encode body))) /\
  (secret <> [] -> Forall is_ascii secret -> (length secret < 64)%nat ->
   validateSignature (secret ++ [0]) body providedSignature =
   validateSignature secret body providedSignature).
Proof.
  split; [|split; [|split]].
  - intros Hs. split.
    + rewrite validateSignature_true. split; [intros [_ H]; exact H | intros H; split; assumption].
    + rewrite validateSignature_false. split; [intros [_ H]; exact H | intros H; split; assumption].
  - intros ->. apply validateSignature_empty.
  - intros secret' body' Hs' H. apply validateSignature_true in H. destruct H as [_ ->].
    rewrite validateSignature_false. rewrite <- expected_signature_eq. split.
    + intros [_ H] E. apply H. symmetry. exact E.
    + intros H. split; [exact Hs'|]. intros E. apply H. symmetry. exact E.
  - apply validateSignature_zero_padding.
Qed.

Lemma js_ascii_k : Forall is_ascii (js "k").
Proof.
  change (js "k") with [107]. constructor; [unfold is_ascii; lia | constructor].
Qed.

Lemma js_k_nonempty : js "k" <> [].
Proof. discriminate. Qed.

Lemma js_k_short : (length (js "k") < 64)%nat.
Proof. change (js "k") with [107]. cbn [length]. lia. Qed.

(** C1, as the spec states it, fails.  With the empty secret the provided
    signature is the base64 text of the tag, and the promise is rejected
    with a DataError: no verdict is returned.  And the signature that is
    accepted for the secret "k" is still accepted when the secret is
    changed to "k" followed by U+0000. *)
Lemma validateSignature_empty_secret_throws :
  js "IvjuqQlACvmK3zaBqfMZI+9rf8ukq7VT2Sgjo+nVwl4=" =
    Base64.encode (HMAC.hmac_sha256 (TextEncoder.encode (js "")) (TextEncoder.encode (js "{}"))) /\
  validateSignature (js "") (js "{}") (js "IvjuqQlACvmK3zaBqfMZI+9rf8ukq7VT2Sgjo+nVwl4=") =
    Rejected DataError /\
  validateSignature (js "k") (js "{}") (js "rdhTsQP7zJNqGU+esV4pxP8Ir25H1dG8pPICGOMeT/8=") =
    Fulfilled true /\
  validateSignature (js "k" ++ [0]) (js "{}") (js "rdhTsQP7zJNqGU+esV4pxP8Ir25H1dG8pPICGOMeT/8=") =
    Fulfilled true.
Proof.
  assert (Hk : validateSignature (js "k") (js "{}")
                 (js "rdhTsQP7zJNqGU+esV4pxP8Ir25H1dG8pPICGOMeT/8=") = Fulfilled true)
    by (vm_compute; reflexivity).
  split; [|split; [|split]].
  - vm_compute. reflexivity.
  - reflexivity.
  - exact Hk.
  - exact (eq_trans
             (validateSignature_zero_padding (js "k") (js "{}")
                (js "rdhTsQP7zJNqGU+esV4pxP8Ir25H1dG8pPICGOMeT/8=")
                js_k_nonempty js_ascii_k js_k_short)
             Hk).
Qed.

Lemma validateSignature_iff_tag_witness :
  validateSignature (js "k") (js "{}") (js "rdhTsQP7zJNqGU+esV4pxP8Ir25H1dG8pPICGOMeT/8=") =
    Fulfilled true <->
  js "rdhTsQP7zJNqGU+esV4pxP8Ir25H1dG8pPICGOMeT/8=" =
  Base64.encode (HMAC.hmac_sha256 (TextEncoder.encode (js "k")) (TextEncoder.encode (js "{}"))).
Proof.
  apply (proj1 (validateSignature_iff_tag (js "k") (js "{}")
                  (js "rdhTsQP7zJNqGU+esV4pxP8Ir25H1dG8pPICGOMeT/8="))).
  exact js_k_nonempty.
Defined.

(* ===================================================================== *)
(** ** The webhook route *)
(* ===================================================================== *)

Lemma signature_of_cases (req : Request) :
  (signature_of req = [] /\
   (req_x_line_signature req = None \/ req_x_line_signature req = Some [])) \/
  (req_x_line_signature req = Some (signature_of req)).
Proof.
  unfold signature_of. destruct (req_x_line_signature req) as [[|c s]|]; cbn; auto.
Qed.

Lemma webhook_refused (env : Env) (req : Request) (o : Oracle) (sched : list nat) :
  LINE_CHANNEL_SECRET env <> [] ->
  (req_x_line_signature req = None \/
   req_x_line_signature req = Some [] \/
   exists s, req_x_line_signature req = Some s /\
             s <> expected_signature (LINE_CHANNEL_SECRET env) (req_text req)) ->
  webhook env req o sched =
  ([], Some (Fulfilled (mkResponse (js "Invalid signature") 401))).
Proof.
  intros Hsecret H.
  assert (Hv : validateSignature (LINE_CHANNEL_SECRET env) (req_text req) (signature_of req)
               = Fulfilled false).
  { apply validateSignature_false. split; [exact Hsecret|].
    pose proof (expected_signature_nonempty (LINE_CHANNEL_SECRET env) (req_text req)) as Hne.
    destruct (signature_of_cases req) as [[E _]|E].
    - rewrite E. intro E'. apply Hne. symmetry. exact E'.
    - destruct H as [H|[H|[s [H Hs]]]]; rewrite H in E.
      + discriminate E.
      + injection E as E. rewrite <- E. intro E'. apply Hne. symmetry. exact E'.
      + injection E as E. rewrite <- E. exact Hs. }
  unfold webhook. rewrite Hv. reflexivity.
Qed.

(** C2, as amended.  When the channel secret is not empty, a request whose
    [x-line-signature] header is missing, empty, or different from the
    signature of the body text (the body decoded by [c.req.text()] and
    encoded again by the verifier) is answered 401 with the body
    "Invalid signature"; the route does nothing else: no [JSON.parse], no
    handler, no outbound call.  When the bytes of the body are what their
    text is encoded to (well-formed UTF-8 without a byte order mark), that
    signature is the signature of the raw body.  When the channel secret is
    empty, the route handler is rejected with a DataError and answers
    nothing. *)
Theorem invalid_signature_is_rejected (env : Env) (req : Request) (o : Oracle)
        (sched : list nat) :
  (LINE_CHANNEL_SECRET env <> [] ->
   (req_x_line_signature req = None \/
    req_x_line_signature req = Some [] \/
    exists s, req_x_line_signature req = Some s /\
              s <> Base64.encode
                     (HMAC.hmac_sha256 (TextEncoder.encode (LINE_CHANNEL_SECRET env))
                                       (TextEncoder.encode (TextDecoder.decode (req_body req))))) ->
   webhook env req o sched =
   ([], Some (Fulfilled (mkResponse (js "Invalid signature") 401)))) /\
  (LINE_CHANNEL_SECRET env <> [] ->
   TextEncoder.encode (TextDecoder.decode (req_body req)) = req_body req ->
   (req_x_line_signature req = None \/
    req_x_line_signature req = Some [] \/
    exists s, req_x_line_signature req = Some s /\
              s <> Base64.encode
                     (HMAC.hmac_sha256 (TextEncoder.encode (LINE_CHANNEL_SECRET env))
                                       (req_body req))) ->
   webhook env req o sched =
   ([], Some (Fulfilled (mkResponse (js "Invalid signature") 401)))) /\
  (LINE_CHANNEL_SECRET env = [] ->
   webhook env req o sched = ([], Some (Rejected DataError))).
Proof.
  split; [|split].
  - intros Hsecret H. apply (webhook_refused env req o sched Hsecret). exact H.
  - intros Hsecret Hutf8 H. apply (webhook_refused env req o sched Hsecret).
    unfold expected_signature, btoa_of_bytes, req_text. rewrite Hutf8. exact H.
  - intros Hsecret. unfold webhook. rewrite Hsecret. reflexivity.
Qed.

Lemma sample_secret_nonempty : LINE_CHANNEL_SECRET sample_env <> [].
Proof. discriminate. Qed.

Lemma sample_text_utf8 : TextEncoder.encode (TextDecoder.decode sample_text) = sample_text.
Proof. vm_compute. reflexivity. Qed.

Lemma invalid_signature_is_rejected_witness :
  webhook sample_env (mkRequest sample_text (Some (js "c2lnbmVk")))
          (world (Fulfilled (mkFetchResponse 200 []))
                 (Fulfilled (mkResult (Some (js "hello")) (js "en"))))
          (complete_schedule 2) =
  ([], Some (Fulfilled (mkResponse (js "Invalid signature") 401))).
Proof.
  apply (proj1 (proj2 (invalid_signature_is_rejected sample_env
                         (mkRequest sample_text (Some (js "c2lnbmVk")))
                         (world (Fulfilled (mkFetchResponse 200 []))
                                (Fulfilled (mkResult (Some (js "hello")) (js "en"))))
                         (complete_schedule 2)))
               sample_secret_nonempty sample_text_utf8).
  right. right. exists (js "c2lnbmVk"). split.
  - reflexivity.
  - intros H. apply (f_equal (@length Z)) in H.
    rewrite signature_length in H. discriminate H.
Defined.

(** C2, as the spec states it, fails.  With an empty channel secret a
    request without the header is not answered 401: the route handler is
    rejected with a DataError.  And a request whose body is no well-formed
    UTF-8 (the byte 0xFF inside a JSON string) is accepted with the
    signature of its text, in which U+FFFD stands for that byte, though this
    header is not the signature of the raw body: the body is parsed and the
    request is answered 200. *)
Lemma unverified_request_is_not_always_refused :
  webhook (mkEnv (js "") (js "channel-token") (js "elevenlabs-key"))
          (mkRequest sample_text None) sample_world [] =
    ([], Some (Rejected DataError)) /\
  JSString_eqb (js "hdE7HxxMajZh/1N1YhZTyx+wQ1l1ZTyIRDVUcIHMw5E=")
               (Base64.encode
                  (HMAC.hmac_sha256 (TextEncoder.encode (js "channel-secret"))
                                    [123; 34; 97; 34; 58; 34; 255; 34; 125])) = false /\
  webhook sample_env
          (mkRequest [123; 34; 97; 34; 58; 34; 255; 34; 125]
                     (Some (js "hdE7HxxMajZh/1N1YhZTyx+wQ1l1ZTyIRDVUcIHMw5E=")))
          sample_world [] =
    ([Parsed [123; 34; 97; 34; 58; 34; 0xFFFD; 34; 125]; Logged (LogResponses [])],
     Some (Fulfilled (mkResponse (js "OK") 200))).
Proof. split; [|split]; vm_compute; reflexivity. Qed.

Lemma webhook_verified (env : Env) (req : Request) (o : Oracle) (sched : list nat)
      (body : JSValue) (events : list JSValue) :
  validateSignature (LINE_CHANNEL_SECRET env) (req_text req) (signature_of req) = Fulfilled true ->
  JSON.parse (req_text req) = Some body ->
  events_of body = Normal events ->
  webhook env req o sched =
  match waited_outcome (dispatch env events o sched) with
  | Some (Fulfilled responses) =>
      (Parsed (req_text req) :: waited_effects (dispatch env events o sched)
         ++ [Logged (LogResponses responses)],
       Some (Fulfilled (mkResponse (js "OK") 200)))
  | Some (Rejected e) =>
      (Parsed (req_text req) :: waited_effects (dispatch env events o sched), Some (Rejected e))
  | None => (Parsed (req_text req) :: waited_effects (dispatch env events o sched), None)
  end.
Proof.
  intros Hv Hp He. unfold webhook. rewrite Hv, Hp, He. reflexivity.
Qed.

Lemma dispatch_outcome (env : Env) (events : list JSValue) (o : Oracle) (sched : list nat) :
  waited_outcome (dispatch env events o sched) =
  Promise_all (waited_pool (dispatch env events o sched)) /\
  length (waited_pool (dispatch env events o sched)) = length events /\
  logged_events (waited_effects (dispatch env events o sched)) = events.
Proof.
  unfold dispatch. cbn [waited_outcome waited_pool waited_effects].
  destruct (start_all_handlers env events) as [Hl [Hb Hn]].
  destruct (await_all_outcome _ o sched 0
              (snd (start_all (map (fun event => handleEvent event env) events)))) as [Ho Hlen].
  rewrite Ho, Hlen, Hn. repeat split.
  rewrite logged_events_app, Hl, (await_all_quiet _ _ o sched 0 _ Hb).
  apply app_nil_r.
Qed.


Lemma signed_is_valid (env : Env) (body : Bytes) :
  LINE_CHANNEL_SECRET env <> [] ->
  TextEncoder.encode (TextDecoder.decode body) = body ->
  validateSignature (LINE_CHANNEL_SECRET env) (req_text (signed env body))
                    (signature_of (signed env body)) = Fulfilled true.
Proof.
  intros Hsecret Hutf8. apply validateSignature_true. split; [exact Hsecret|].
  unfold signed, signature_of, req_text, expected_signature, btoa_of_bytes.
  cbn [req_body req_x_line_signature truthy]. rewrite Hutf8.
  pose proof (signature_length (TextEncoder.encode (LINE_CHANNEL_SECRET env)) body) as H.
  destruct (Base64.encode (HMAC.hmac_sha256 (TextEncoder.encode (LINE_CHANNEL_SECRET env)) body));
    [discriminate H | reflexivity].
Qed.

Lemma events_of_array (body : JSValue) (events : list JSValue) :
  property body (js "events") = VArray events -> events_of body = Normal events.
Proof.
  intros H. unfold events_of.
  assert (Hn : nullish body = false) by (destruct body; try reflexivity; discriminate H).
  rewrite (get_not_nullish _ _ Hn), H. reflexivity.
Qed.

Lemma events_of_absent (body : JSValue) :
  nullish body = false -> property body (js "events") = VUndefined -> events_of body = Normal [].
Proof.
  intros Hn H. unfold events_of. rewrite (get_not_nullish _ _ Hn), H. reflexivity.
Qed.

Lemma await_all_settled (A : Type) (o : Oracle) (sched : list nat) (t : nat)
      (pool : list (Task A)) (s : Settled (list A)) :
  Promise_all pool = Some s -> await_all o sched t pool = mkWaited [] pool (Some s).
Proof. intros H. destruct sched; cbn; rewrite H; reflexivity. Qed.

Lemma dispatch_no_events (env : Env) (o : Oracle) (sched : list nat) :
  dispatch env [] o sched = mkWaited [] [] (Some (Fulfilled [])).
Proof.
  unfold dispatch. cbn [map start_all fst snd].
  rewrite (await_all_settled _ o sched 0 [] (Fulfilled []) eq_refl). reflexivity.
Qed.

(** *** Fulfilled handlers hold the response of their reply *)

Lemma reply_response_is_reply (c : Call) (r : Settled (Answer c)) (a : FetchResponse) :
  reply_response c r = Some a -> is_reply c = true.
Proof.
  destruct c as [url init|resp|key request]; cbn [reply_response]; try discriminate.
  destruct (is_reply (fetch url init)); [reflexivity | discriminate].
Qed.

Lemma task_returns_reply_mono (P : Call -> Prop) (o : Oracle) (T T' : nat) (E E' : list Effect)
      (task : Task FetchResponse) :
  (T <= T')%nat -> (forall x, In x E -> In x E') ->
  task_returns_reply P o T E task -> task_returns_reply P o T' E' task.
Proof.
  intros HT HE. destruct task as [c k|[a|e]]; cbn [task_returns_reply].
  - intros [Hin H]. split; [apply HE; exact Hin | exact H].
  - intros [c [t [Ht [Hin H]]]]. exists c, t. split; [lia|]. split; [apply HE; exact Hin | exact H].
  - auto.
Qed.

Lemma start_returns_reply (P : Call -> Prop) (o : Oracle) (T : nat) (E : list Effect)
      (last : option FetchResponse) (p : Prog FetchResponse) :
  returns_reply P last p ->
  (forall a, last = Some a ->
     exists c t, (t < T)%nat /\ In (Called c) E /\ P c /\ reply_response c (o t c) = Some a) ->
  task_returns_reply P o T (E ++ fst (start p)) (snd (start p)).
Proof.
  induction 1 as [a|last e|last entry k Hk IH|last c k Hc Hk _]; intros Hlast;
    cbn [start emit fst snd task_returns_reply].
  - destruct (Hlast a eq_refl) as [c [t [Ht [Hin H]]]]. exists c, t.
    rewrite app_nil_r. auto.
  - exact I.
  - apply (task_returns_reply_mono P o T T (E ++ fst (start k))); [lia | | apply IH; exact Hlast].
    intros x Hx. apply in_app_iff in Hx. apply in_app_iff.
    destruct Hx as [Hx|Hx]; [left | right; right]; exact Hx.
  - split; [apply in_app_iff; right; left; reflexivity|]. split; assumption.
Qed.

Lemma returns_reply_settle (P : Call -> Prop) (url : Url) (init : RequestInit)
      (r : Settled FetchResponse) :
  is_reply (fetch url init) = true ->
  returns_reply P (reply_response (fetch url init) r) (settle r).
Proof.
  intros H. cbn [reply_response]. rewrite H. destruct r; constructor.
Qed.

Lemma returns_reply_replyText (P : Call -> Prop) (last : option FetchResponse)
      (token : JSString) (replyToken : JSValue) (messages : list JSString) :
  P (reply_call token replyToken messages) ->
  returns_reply P last (replyText token replyToken messages).
Proof.
  intros H. unfold replyText, await. constructor; [exact H|].
  intros r. apply (returns_reply_settle P _ _ r). reflexivity.
Qed.

(** The handler returns only what its reply request is fulfilled with, and
    that request carries the reply token of the event. *)
Lemma handleEvent_returns_reply (event : JSValue) (env : Env) :
  returns_reply (answers event) None (handleEvent event env).
Proof.
  assert (Hreply : forall last messages,
            returns_reply (answers event) last
              (replyText (LINE_CHANNEL_ACCESS_TOKEN env) (property event (js "replyToken"))
                         messages)).
  { intros last messages. apply returns_reply_replyText. intros _. reflexivity. }
  destruct (nullish event) eqn:Hn.
  { destruct (handleEvent_nullish event env Hn) as [msg ->]. repeat constructor. }
  destruct (is_media_event event) eqn:Hm.
  2:{ rewrite (handleEvent_unsupported event env Hn Hm). constructor. apply Hreply. }
  destruct (nullish (property event (js "source"))) eqn:Hs.
  { destruct (handleEvent_without_source event env Hm Hs) as [msg ->]. repeat constructor. }
  rewrite (handleEvent_media event env Hm Hs).
  constructor. constructor; [intros H; discriminate H|].
  intros [a|e]; [|constructor]. rewrite after_loading_fulfilled.
  destruct (ToString (property (message_of event) (js "id"))) as [messageId|e]; [|constructor].
  constructor; [intros H; discriminate H|].
  intros [resp|e]; cbn [after_content settle bind]; [|constructor].
  constructor; [intros H; discriminate H|].
  intros [blob|e]; cbn [after_buffer settle bind]; [|constructor].
  constructor; [intros H; discriminate H|].
  intros [result|e]; cbn [after_convert settle bind]; [|constructor].
  apply Hreply.
Qed.

Lemma start_all_returns_reply (env : Env) (o : Oracle) (events : list JSValue) :
  forall E : list Effect,
  Forall2 (fun event task =>
             task_returns_reply (answers event) o 0
               (E ++ fst (start_all (map (fun event => handleEvent event env) events))) task)
          events (snd (start_all (map (fun event => handleEvent event env) events))).
Proof.
  induction events as [|event events IH]; intros E; cbn [map start_all fst snd].
  - constructor.
  - constructor.
    + apply (task_returns_reply_mono _ o 0 0 (E ++ fst (start (handleEvent event env))));
        [lia | |].
      * intros x Hx. rewrite app_assoc. apply in_app_iff. left. exact Hx.
      * apply (start_returns_reply _ o 0 E None); [apply handleEvent_returns_reply|].
        intros a Ha. discriminate Ha.
    + rewrite app_assoc. apply IH.
Qed.

Lemma resume_returns_reply (o : Oracle) (t : nat) (E : list Effect) :
  forall (events : list JSValue) (pool : list (Task FetchResponse)),
  Forall2 (fun event task => task_returns_reply (answers event) o t E task) events pool ->
  forall i : nat,
  Forall2 (fun event task =>
             task_returns_reply (answers event) o (S t) (E ++ fst (resume o t i pool)) task)
          events (snd (resume o t i pool)).
Proof.
  intros events pool H.
  assert (Hmono : forall (E' : list Effect) events pool,
            Forall2 (fun event task => task_returns_reply (answers event) o t E task)
                    events pool ->
            Forall2 (fun event task => task_returns_reply (answers event) o (S t) (E ++ E') task)
                    events pool).
  { intros E' evs pl. apply Forall2_impl. intros event task.
    apply task_returns_reply_mono; [lia|]. intros x Hx. apply in_app_iff. left. exact Hx. }
  induction H as [|event task events pool Htask Hpool IH]; intros i.
  - destruct i; constructor.
  - destruct i as [|i].
    + destruct task as [c k|s]; cbn [resume fst snd].
      * constructor; [|apply Hmono; exact Hpool].
        destruct Htask as [Hin [Hc Hk]].
        apply (start_returns_reply _ o (S t) E (reply_response c (o t c))); [apply Hk|].
        intros a Ha. exists c, t. split; [lia|]. auto.
      * apply Hmono. constructor; assumption.
    + assert (Hhead : task_returns_reply (answers event) o (S t)
                        (E ++ fst (resume o t i pool)) task).
      { revert Htask. apply task_returns_reply_mono; [lia|].
        intros x Hx. apply in_app_iff. left. exact Hx. }
      destruct task as [c k|s]; cbn [resume fst snd]; (constructor; [exact Hhead | apply IH]).
Qed.

Lemma await_all_returns_reply (o : Oracle) (sched : list nat) :
  forall (t : nat) (E : list Effect) (events : list JSValue) (pool : list (Task FetchResponse)),
  Forall2 (fun event task => task_returns_reply (answers event) o t E task) events pool ->
  Forall2 (fun event task =>
             task_returns_reply (answers event) o (t + length sched)
               (E ++ waited_effects (await_all o sched t pool)) task)
          events (waited_pool (await_all o sched t pool)).
Proof.
  assert (Hmono : forall t n (E : list Effect) events pool,
            Forall2 (fun event task => task_returns_reply (answers event) o t E task)
                    events pool ->
            Forall2 (fun event task => task_returns_reply (answers event) o (t + n) (E ++ []) task)
                    events pool).
  { intros t n E evs pl. apply Forall2_impl. intros event task.
    apply task_returns_reply_mono; [lia|]. intros x Hx. rewrite app_nil_r. exact Hx. }
  induction sched as [|i sched IH]; intros t E events pool H; cbn [await_all].
  - destruct (Promise_all pool); cbn [waited_effects waited_pool]; apply Hmono; exact H.
  - destruct (Promise_all pool); cbn [waited_effects waited_pool]; [apply Hmono; exact H|].
    rewrite app_assoc. cbn [length]. replace (t + S (length sched))%nat with (S t + length sched)%nat by lia.
    apply IH. apply resume_returns_reply. exact H.
Qed.

Lemma dispatch_returns_reply (env : Env) (events : list JSValue) (o : Oracle) (sched : list nat) :
  Forall2 (fun event task =>
             task_returns_reply (answers event) o (length sched)
               (waited_effects (dispatch env events o sched)) task)
          events (waited_pool (dispatch env events o sched)).
Proof.
  unfold dispatch. cbn [waited_effects waited_pool].
  apply (await_all_returns_reply o sched 0).
  apply (start_all_returns_reply env o events []).
Qed.

Lemma fulfilled_pool_responses (o : Oracle) (T : nat) (E E' : list Effect) :
  (forall x, In x E -> In x E') ->
  forall (events : list JSValue) (responses : list FetchResponse),
  Forall2 (fun event task => task_returns_reply (answers event) o T E task)
          events (map (fun a => Done (Fulfilled a)) responses) ->
  Forall2 (fun event response =>
             exists c t,
               (t < T)%nat /\ In (Called c) E' /\
               sent_reply_token c = Some (property event (js "replyToken")) /\
               reply_response c (o t c) = Some response)
          events responses.
Proof.
  intros HE. induction events as [|event events IH]; intros responses H.
  - destruct responses; [constructor | inversion H].
  - destruct responses as [|r responses]; [inversion H|]. cbn [map] in H.
    inversion H as [|? ? ? ? Hhead Htail]; subst. constructor; [|apply IH; exact Htail].
    destruct Hhead as [c [t [Ht [Hin [Hc Hr]]]]]. exists c, t.
    split; [exact Ht|]. split; [apply HE; exact Hin|].
    split; [|exact Hr]. apply Hc. apply (reply_response_is_reply c _ _ Hr).
Qed.

(** *** Where every call is fulfilled, handlers that do not fault are fulfilled *)

Lemma start_succeeds (A : Type) (p : Prog A) : succeeds p -> task_succeeds (snd (start p)).
Proof.
  induction 1 as [a|entry k Hk IH|c k Hk _]; cbn [start emit snd task_succeeds].
  - exact I.
  - exact IH.
  - exact Hk.
Qed.

Lemma resume_succeeds (A : Type) (o : Oracle) (t i : nat) (pool : list (Task A)) :
  (forall t c, exists a, o t c = Fulfilled a) ->
  Forall task_succeeds pool -> Forall task_succeeds (snd (resume o t i pool)).
Proof.
  intros Ho H. revert i. induction H as [|task pool Htask Hpool IH]; intros i.
  - destruct i; constructor.
  - destruct i as [|i].
    + destruct task as [c k|s]; cbn [resume fst snd]; [|constructor; assumption].
      constructor; [|exact Hpool]. apply start_succeeds.
      destruct (Ho t c) as [a ->]. apply Htask.
    + destruct task as [c k|s]; cbn [resume fst snd]; (constructor; [exact Htask | apply IH]).
Qed.

Lemma await_all_succeeds (A : Type) (o : Oracle) (sched : list nat) (t : nat)
      (pool : list (Task A)) :
  (forall t c, exists a, o t c = Fulfilled a) ->
  Forall task_succeeds pool -> Forall task_succeeds (waited_pool (await_all o sched t pool)).
Proof.
  intros Ho. revert t pool. induction sched as [|i sched IH]; intros t pool H; cbn [await_all].
  - destruct (Promise_all pool); exact H.
  - destruct (Promise_all pool); [exact H|]. cbn [waited_pool].
    apply IH. apply resume_succeeds; assumption.
Qed.

Lemma handleEvent_succeeds (event : JSValue) (env : Env) :
  faults event = false -> succeeds (handleEvent event env).
Proof.
  unfold faults, faults_at_once. intros H.
  apply orb_false_iff in H. destruct H as [H Hid].
  apply orb_false_iff in H. destruct H as [Hn Hsrc].
  destruct (is_media_event event) eqn:Hm.
  2:{ rewrite (handleEvent_unsupported event env Hn Hm).
      constructor. constructor. intros a. constructor. }
  cbn [andb] in Hsrc, Hid.
  rewrite (handleEvent_media event env Hm Hsrc).
  constructor. constructor. intros a. rewrite after_loading_fulfilled.
  destruct (ToString (property (message_of event) (js "id"))) as [messageId|e];
    [|discriminate Hid].
  constructor. intros resp. cbn [after_content settle bind].
  constructor. intros blob. cbn [after_buffer settle bind].
  constructor. intros result. cbn [after_convert settle bind].
  constructor. intros a'. constructor.
Qed.

Lemma start_all_succeed (env : Env) (events : list JSValue) :
  existsb faults events = false ->
  Forall task_succeeds (snd (start_all (map (fun event => handleEvent event env) events))).
Proof.
  induction events as [|event events IH]; cbn [existsb map start_all snd]; intros H.
  - constructor.
  - apply orb_false_iff in H. destruct H as [H1 H2]. constructor.
    + apply start_succeeds. apply handleEvent_succeeds. exact H1.
    + apply IH. exact H2.
Qed.

Lemma dispatch_fulfilled (env : Env) (events : list JSValue) (o : Oracle) :
  (forall t c, exists a, o t c = Fulfilled a) ->
  existsb faults events = false ->
  exists responses,
    waited_outcome (dispatch env events o (complete_schedule (length events))) =
    Some (Fulfilled responses).
Proof.
  intros Ho Hf.
  pose proof (dispatch_settles env events o) as Hs.
  destruct (dispatch_outcome env events o (complete_schedule (length events))) as [Hout _].
  destruct (waited_outcome (dispatch env events o (complete_schedule (length events))))
    as [[l|e]|].
  - exists l. reflexivity.
  - exfalso. symmetry in Hout. apply Promise_all_rejected in Hout.
    assert (H : Forall task_succeeds
                  (waited_pool (dispatch env events o (complete_schedule (length events))))).
    { unfold dispatch. cbn [waited_pool]. apply await_all_succeeds; [exact Ho|].
      apply start_all_succeed. exact Hf. }
    rewrite Forall_forall in H. apply (H _ Hout).
  - exfalso. apply Hs. reflexivity.
Qed.

Lemma logged_events_webhook (text : JSString) (es : list Effect) (tail : list Effect) :
  logged_events tail = [] ->
  logged_events (Parsed text :: es ++ tail) = logged_events es.
Proof.
  intros H. change (logged_events (Parsed text :: es ++ tail)) with (logged_events (es ++ tail)).
  rewrite logged_events_app, H. apply app_nil_r.
Qed.

(** C4, as amended.  The body of a verified request is parsed as JSON.  When
    the body is not [null] and has no [events], the route handles no event
    and answers 200 "OK".  With an array of N events the handler is called N
    times, once per event and in order, before any outbound call completes
    and whatever completes later: each call writes its event to the
    console.  The route answers 200 only when all N handlers are fulfilled:
    the N responses it then writes to the console are, event by event, the
    response the environment gave, before the answer, to a reply request
    that was issued with the reply token of that event.  Where every call is
    fulfilled and no event makes its handler throw, the 200 answer is given
    once every call has completed; with that schedule the route handler
    settles in every environment. *)
Theorem dispatcher_fan_out (env : Env) (req : Request) (o : Oracle) (sched : list nat)
        (body : JSValue) :
  validateSignature (LINE_CHANNEL_SECRET env) (req_text req) (signature_of req) = Fulfilled true ->
  JSON.parse (req_text req) = Some body ->
  (nullish body = false -> property body (js "events") = VUndefined ->
   webhook env req o sched =
   ([Parsed (req_text req); Logged (LogResponses [])],
    Some (Fulfilled (mkResponse (js "OK") 200)))) /\
  (forall events,
     property body (js "events") = VArray events ->
     logged_events (fst (webhook env req o [])) = events /\
     logged_events (fst (webhook env req o sched)) = events /\
     (forall resp,
        snd (webhook env req o sched) = Some (Fulfilled resp) ->
        resp = mkResponse (js "OK") 200 /\
        exists before responses,
          fst (webhook env req o sched) =
          Parsed (req_text req) :: before ++ [Logged (LogResponses responses)] /\
          Forall2 (fun event response =>
                     exists c t,
                       (t < length sched)%nat /\
                       In (Called c) (fst (webhook env req o sched)) /\
                       sent_reply_token c = Some (property event (js "replyToken")) /\
                       reply_response c (o t c) = Some response)
                  events responses) /\
     ((forall t c, exists a, o t c = Fulfilled a) ->
      existsb faults events = false ->
      snd (webhook env req o (complete_schedule (length events))) =
      Some (Fulfilled (mkResponse (js "OK") 200))) /\
     snd (webhook env req o (complete_schedule (length events))) <> None).
Proof.
  intros Hv Hp. split.
  - intros Hn Habsent.
    rewrite (webhook_verified env req o sched body [] Hv Hp (events_of_absent body Hn Habsent)).
    rewrite dispatch_no_events. reflexivity.
  - intros events Harr. pose proof (events_of_array body events Harr) as He.
    assert (Hlog : forall sched',
              logged_events (fst (webhook env req o sched')) = events).
    { intros sched'. rewrite (webhook_verified env req o sched' body events Hv Hp He).
      destruct (dispatch_outcome env events o sched') as [_ [_ Hlog]].
      destruct (waited_outcome (dispatch env events o sched')) as [[l|e]|]; cbn [fst].
      - rewrite logged_events_webhook by reflexivity. exact Hlog.
      - rewrite <- (app_nil_r (waited_effects _)).
        rewrite logged_events_webhook by reflexivity. exact Hlog.
      - rewrite <- (app_nil_r (waited_effects _)).
        rewrite logged_events_webhook by reflexivity. exact Hlog. }
    split; [apply Hlog|]. split; [apply Hlog|]. split; [|split].
    + intros resp. rewrite (webhook_verified env req o sched body events Hv Hp He).
      destruct (dispatch_outcome env events o sched) as [Ho _].
      pose proof (dispatch_returns_reply env events o sched) as Hinv.
      destruct (waited_outcome (dispatch env events o sched)) as [[l|e]|];
        cbn [fst snd]; intros H; try discriminate H.
      apply Fulfilled_inj_option in H. subst resp. split; [reflexivity|].
      exists (waited_effects (dispatch env events o sched)), l. split; [reflexivity|].
      symmetry in Ho. apply Promise_all_fulfilled in Ho. rewrite Ho in Hinv.
      apply (fulfilled_pool_responses o (length sched)
               (waited_effects (dispatch env events o sched))); [|exact Hinv].
      intros x Hx. right. apply in_app_iff. left. exact Hx.
    + intros Hall Hf.
      rewrite (webhook_verified env req o _ body events Hv Hp He).
      destruct (dispatch_fulfilled env events o Hall Hf) as [l ->]. reflexivity.
    + rewrite (webhook_verified env req o _ body events Hv Hp He).
      pose proof (dispatch_settles env events o) as Hs.
      destruct (waited_outcome (dispatch env events o (complete_schedule (length events))))
        as [[l|e]|]; cbn [snd]; congruence.
Qed.

Lemma bare_text_utf8 : TextEncoder.encode (TextDecoder.decode bare_text) = bare_text.
Proof. vm_compute. reflexivity. Qed.

Lemma sample_world_fulfils (t : nat) (c : Call) : exists a, sample_world t c = Fulfilled a.
Proof.
  destruct c as [[u|before hole after] init|resp|key request]; cbn; try (eexists; reflexivity).
  destruct (JSString_eqb u loading_endpoint); eexists; reflexivity.
Qed.

Lemma dispatcher_fan_out_witness :
  webhook sample_env (signed sample_env bare_text) sample_world [] =
    ([Parsed bare_text; Logged (LogResponses [])],
     Some (Fulfilled (mkResponse (js "OK") 200))) /\
  logged_events (fst (webhook sample_env (signed sample_env sample_text) sample_world []))
    = [audio_event; text_event] /\
  snd (webhook sample_env (signed sample_env sample_text) sample_world
               (complete_schedule (length [audio_event; text_event]))) =
    Some (Fulfilled (mkResponse (js "OK") 200)).
Proof.
  split; [|split].
  - apply (dispatcher_fan_out sample_env (signed sample_env bare_text) sample_world []
             (VObject [(js "destination", VString (js "U0"))])
             (signed_is_valid sample_env bare_text sample_secret_nonempty bare_text_utf8)
             eq_refl);
      reflexivity.
  - apply (proj2 (dispatcher_fan_out sample_env (signed sample_env sample_text) sample_world
                    [] sample_value
                    (signed_is_valid sample_env sample_text sample_secret_nonempty
                                     sample_text_utf8)
                    eq_refl)
                 [audio_event; text_event] eq_refl).
  - apply (proj2 (dispatcher_fan_out sample_env (signed sample_env sample_text) sample_world
                    [] sample_value
                    (signed_is_valid sample_env sample_text sample_secret_nonempty
                                     sample_text_utf8)
                    eq_refl)
                 [audio_event; text_event] eq_refl).
    + exact sample_world_fulfils.
    + reflexivity.
Defined.

(** C4, as the spec states it, fails: the body [null] is JSON and has no
    [events], and reading [body.events] throws; the route handler is
    rejected and answers nothing. *)
Lemma null_body_is_no_empty_delivery :
  JSON.parse (js "null") = Some VNull /\
  property VNull (js "events") = VUndefined /\
  webhook sample_env (signed sample_env (js "null")) sample_world [] =
    ([Parsed (js "null")],
     Some (Rejected (TypeError (js "Cannot read properties of null (reading 'events')")))).
Proof. split; [|split]; vm_compute; reflexivity. Qed.



(** The sample delivery: two events, both answered, then the acknowledgement. *)
Example sample_delivery_is_acknowledged :
  snd (webhook sample_env (signed sample_env sample_text) sample_world (complete_schedule 2)) =
    Some (Fulfilled (mkResponse (js "OK") 200)) /\
  replies (fst (webhook sample_env (signed sample_env sample_text) sample_world
                        (complete_schedule 2))) =
    [reply_call (js "channel-token") (VString (js "r2"))
                [js "Please send an audio or video message."];
     reply_call (js "channel-token") (VString (js "r1")) [js "[en]: hello"]] /\
  snd (webhook sample_env (signed sample_env sample_text) sample_world [0; 1; 0]%nat) = None.
Proof. vm_compute. repeat split. Qed.

(* ===================================================================== *)
(** ** More on the signature verifier *)
(* ===================================================================== *)

Lemma expected_signature_last (secret body : JSString) :
  nth 43 (expected_signature secret body) 0 = 61.
Proof.
  unfold expected_signature, btoa_of_bytes, HMAC.hmac_sha256, SHA256.sha256.
  generalize (fold_left SHA256.compress
                (SHA256.blocks
                   (SHA256.words
                      (SHA256.pad
                         (HMAC.xor_with 92 (HMAC.key_block (TextEncoder.encode secret)) ++
                          SHA256.digest_bytes
                            (fold_left SHA256.compress
                               (SHA256.blocks
                                  (SHA256.words
                                     (SHA256.pad
                                        (HMAC.xor_with 54
                                           (HMAC.key_block (TextEncoder.encode secret)) ++
                                         TextEncoder.encode body)))) SHA256.H0)))))
                SHA256.H0).
  intros st. reflexivity.
Qed.

(** X1. For one secret and one body a single signature is accepted; it has
    44 code units and ends with the padding character [=]. *)
Theorem accepted_signature_shape (secret body s1 s2 : JSString) :
  validateSignature secret body s1 = Fulfilled true ->
  validateSignature secret body s2 = Fulfilled true ->
  s1 = s2 /\ length s1 = 44%nat /\ nth 43 s1 0 = 61.
Proof.
  intros H1 H2. apply validateSignature_true in H1, H2.
  destruct H1 as [_ ->]. destruct H2 as [_ ->].
  split; [reflexivity|]. split.
  - apply expected_signature_length.
  - apply expected_signature_last.
Qed.

Lemma accepted_signature_shape_witness :
  js "UtoOYHE8acsa4g+IkWcbaQVcUXJKNXVf6rhIN8LMnU4=" =
  js "UtoOYHE8acsa4g+IkWcbaQVcUXJKNXVf6rhIN8LMnU4=" /\
  length (js "UtoOYHE8acsa4g+IkWcbaQVcUXJKNXVf6rhIN8LMnU4=") = 44%nat /\
  nth 43 (js "UtoOYHE8acsa4g+IkWcbaQVcUXJKNXVf6rhIN8LMnU4=") 0 = 61.
Proof.
  apply (accepted_signature_shape (js "channel-secret") [0xD800]);
    vm_compute; reflexivity.
Defined.

(** X2. When secret and body are ASCII and the secret is not empty, the
    bytes that are signed are their code units: the accepted signature is
    the base64 text of the HMAC-SHA256 tag of the body under the secret,
    both taken as they are. *)
Theorem ascii_signature (secret body signature : JSString) :
  secret <> [] -> Forall is_ascii secret -> Forall is_ascii body ->
  (validateSignature secret body signature = Fulfilled true <->
   signature = Base64.encode (HMAC.hmac_sha256 secret body)).
Proof.
  intros Hne Hs Hb. rewrite validateSignature_true.
  unfold expected_signature, btoa_of_bytes.
  rewrite (encode_ascii _ Hs), (encode_ascii _ Hb).
  split; [intros [_ H]; exact H | intros H; split; assumption].
Qed.

Lemma js_ascii_braces : Forall is_ascii (js "{}").
Proof.
  change (js "{}") with [123; 125].
  constructor; [unfold is_ascii; lia|]. constructor; [unfold is_ascii; lia | constructor].
Qed.

Lemma ascii_signature_witness :
  validateSignature (js "k") (js "{}") (js "rdhTsQP7zJNqGU+esV4pxP8Ir25H1dG8pPICGOMeT/8=") =
    Fulfilled true <->
  js "rdhTsQP7zJNqGU+esV4pxP8Ir25H1dG8pPICGOMeT/8=" =
  Base64.encode (HMAC.hmac_sha256 (js "k") (js "{}")).
Proof.
  apply (ascii_signature (js "k") (js "{}")).
  - exact js_k_nonempty.
  - exact js_ascii_k.
  - exact js_ascii_braces.
Defined.

(* ===================================================================== *)
(** ** Edge cases of the webhook route *)
(* ===================================================================== *)

Lemma webhook_events_thrown (env : Env) (req : Request) (o : Oracle) (sched : list nat)
      (body : JSValue) (e : JSError) :
  validateSignature (LINE_CHANNEL_SECRET env) (req_text req) (signature_of req) = Fulfilled true ->
  JSON.parse (req_text req) = Some body ->
  events_of body = Thrown e ->
  webhook env req o sched = ([Parsed (req_text req)], Some (Rejected e)).
Proof.
  intros Hv Hp He. unfold webhook. rewrite Hv, Hp, He. reflexivity.
Qed.

(** X3. A verified request whose body is the JSON text [null] makes the route
    handler reject with a TypeError, [body.events] being read on [null]; no
    event is handled and no call is made. *)
Theorem null_body_is_rejected (env : Env) (req : Request) (o : Oracle) (sched : list nat) :
  validateSignature (LINE_CHANNEL_SECRET env) (req_text req) (signature_of req) = Fulfilled true ->
  JSON.parse (req_text req) = Some VNull ->
  exists msg,
    webhook env req o sched = ([Parsed (req_text req)], Some (Rejected (TypeError msg))).
Proof.
  intros Hv Hp. eexists.
  apply (webhook_events_thrown env req o sched VNull _ Hv Hp). reflexivity.
Qed.

Lemma null_body_is_rejected_witness :
  exists msg,
    webhook sample_env (signed sample_env (js " null ")) sample_world (complete_schedule 1) =
    ([Parsed (js " null ")], Some (Rejected (TypeError msg))).
Proof.
  apply (null_body_is_rejected sample_env (signed sample_env (js " null "))).
  - apply signed_is_valid; [exact sample_secret_nonempty | reflexivity].
  - reflexivity.
Defined.

(** X4. In a verified request whose body is not [null], an [events] value
    that is falsy ([null], [false], [0], the empty string) counts as no event:
    the route answers 200 "OK" without handling anything.  An [events] value
    that is truthy but no array (a non-empty string, a number, [true], an
    object) makes the route handler reject with a TypeError before any
    handler runs. *)
Theorem events_that_are_no_array (env : Env) (req : Request) (o : Oracle) (sched : list nat)
        (body : JSValue) :
  validateSignature (LINE_CHANNEL_SECRET env) (req_text req) (signature_of req) = Fulfilled true ->
  JSON.parse (req_text req) = Some body ->
  nullish body = false ->
  (truthy (property body (js "events")) = false ->
   webhook env req o sched =
   ([Parsed (req_text req); Logged (LogResponses [])],
    Some (Fulfilled (mkResponse (js "OK") 200)))) /\
  (truthy (property body (js "events")) = true ->
   (forall items, property body (js "events") <> VArray items) ->
   exists msg,
     webhook env req o sched = ([Parsed (req_text req)], Some (Rejected (TypeError msg)))).
Proof.
  intros Hv Hp Hn. split.
  - intros Hf.
    assert (He : events_of body = Normal []).
    { unfold events_of. rewrite (get_not_nullish _ _ Hn), Hf. reflexivity. }
    rewrite (webhook_verified env req o sched body [] Hv Hp He).
    rewrite dispatch_no_events. reflexivity.
  - intros Ht Harr. eexists.
    apply (webhook_events_thrown env req o sched body _ Hv Hp).
    unfold events_of. rewrite (get_not_nullish _ _ Hn), Ht.
    destruct (property body (js "events")); try reflexivity.
    exfalso. apply (Harr items). reflexivity.
Qed.

Lemma events_that_are_no_array_witness :
  webhook sample_env (signed sample_env (json_text "{'events':0}")) sample_world [] =
    ([Parsed (json_text "{'events':0}"); Logged (LogResponses [])],
     Some (Fulfilled (mkResponse (js "OK") 200))) /\
  exists msg,
    webhook sample_env (signed sample_env (json_text "{'events':{'0':1}}")) sample_world [] =
    ([Parsed (json_text "{'events':{'0':1}}")], Some (Rejected (TypeError msg))).
Proof.
  split.
  - apply (events_that_are_no_array sample_env (signed sample_env (json_text "{'events':0}"))
             sample_world []
             (VObject [(js "events", VNumber (mkNumber false 0 0))])
             (signed_is_valid sample_env _ sample_secret_nonempty eq_refl) eq_refl eq_refl).
    reflexivity.
  - apply (events_that_are_no_array sample_env
             (signed sample_env (json_text "{'events':{'0':1}}")) sample_world []
             (VObject [(js "events", VObject [(js "0", VNumber (mkNumber false 1 0))])])
             (signed_is_valid sample_env _ sample_secret_nonempty eq_refl) eq_refl eq_refl).
    + reflexivity.
    + intros items H. discriminate H.
Defined.

Lemma start_handler_done (event : JSValue) (env : Env) (s : Settled FetchResponse) :
  snd (start (handleEvent event env)) = Done s ->
  faults_at_once event = true /\ exists msg, s = Rejected (TypeError msg).
Proof.
  unfold faults_at_once.
  destruct (nullish event) eqn:Hn.
  { destruct (handleEvent_nullish event env Hn) as [msg ->]. cbn. intros H.
    injection H as <-. eauto. }
  destruct (is_media_event event) eqn:Hm.
  2:{ rewrite (handleEvent_unsupported event env Hn Hm). cbn. discriminate. }
  destruct (nullish (property event (js "source"))) eqn:Hs.
  { destruct (handleEvent_without_source event env Hm Hs) as [msg ->]. cbn. intros H.
    injection H as <-. eauto. }
  rewrite (handleEvent_media event env Hm Hs). cbn. discriminate.
Qed.

Lemma start_handler_faults (event : JSValue) (env : Env) :
  faults_at_once event = true ->
  exists msg, start (handleEvent event env) =
              ([Logged (LogEvent event)], Done (Rejected (TypeError msg))).
Proof.
  unfold faults_at_once. intros H.
  destruct (nullish event) eqn:Hn.
  { destruct (handleEvent_nullish event env Hn) as [msg ->]. exists msg. reflexivity. }
  cbn in H. apply andb_true_iff in H. destruct H as [Hm Hs].
  destruct (handleEvent_without_source event env Hm Hs) as [msg ->].
  exists msg. reflexivity.
Qed.

Lemma Promise_all_started (env : Env) (events : list JSValue) :
  existsb faults_at_once events = true ->
  exists msg,
    Promise_all (snd (start_all (map (fun event => handleEvent event env) events))) =
    Some (Rejected (TypeError msg)).
Proof.
  induction events as [|event events IH]; [discriminate|].
  cbn [existsb map start_all snd Promise_all]. intros H.
  destruct (snd (start (handleEvent event env))) as [c k|s] eqn:E.
  - assert (Hf : faults_at_once event = false).
    { destruct (faults_at_once event) eqn:F; [|reflexivity].
      destruct (start_handler_faults event env F) as [msg Hs].
      rewrite Hs in E. discriminate E. }
    rewrite Hf in H. destruct (IH H) as [msg ->]. exists msg. reflexivity.
  - destruct (start_handler_done event env s E) as [_ [msg ->]]. exists msg. reflexivity.
Qed.

(** X5. One event that is [null], or an audio or video event without
    [source], fails the whole delivery at once: whatever the environment and
    the schedule, the route handler rejects with a TypeError as soon as the
    handlers have been started, and no pending call of the other handlers is
    waited for. *)
Theorem faulty_event_fails_delivery (env : Env) (req : Request) (o : Oracle)
        (sched : list nat) (body : JSValue) (events : list JSValue) :
  validateSignature (LINE_CHANNEL_SECRET env) (req_text req) (signature_of req) = Fulfilled true ->
  JSON.parse (req_text req) = Some body ->
  property body (js "events") = VArray events ->
  existsb faults_at_once events = true ->
  exists msg,
    webhook env req o sched =
    (Parsed (req_text req)
       :: fst (start_all (map (fun event => handleEvent event env) events)),
     Some (Rejected (TypeError msg))).
Proof.
  intros Hv Hp Harr Hf.
  rewrite (webhook_verified env req o sched body events Hv Hp (events_of_array body events Harr)).
  destruct (Promise_all_started env events Hf) as [msg Hall]. exists msg.
  unfold dispatch. cbn [waited_outcome waited_effects].
  rewrite (await_all_settled _ o sched 0 _ _ Hall). cbn [waited_outcome waited_effects].
  rewrite app_nil_r. reflexivity.
Qed.

Lemma faulty_text_utf8 : TextEncoder.encode (TextDecoder.decode faulty_text) = faulty_text.
Proof. vm_compute. reflexivity. Qed.

Lemma faulty_event_fails_delivery_witness :
  exists msg,
    webhook sample_env (signed sample_env faulty_text) sample_world (complete_schedule 2) =
    (Parsed (req_text (signed sample_env faulty_text))
       :: fst (start_all (map (fun event => handleEvent event sample_env)
                              [audio_event_without_source; text_event])),
     Some (Rejected (TypeError msg))).
Proof.
  apply (faulty_event_fails_delivery sample_env (signed sample_env faulty_text) sample_world
           (complete_schedule 2)
           (VObject [(js "events", VArray [audio_event_without_source; text_event])])
           [audio_event_without_source; text_event]
           (signed_is_valid sample_env faulty_text sample_secret_nonempty faulty_text_utf8) eq_refl eq_refl eq_refl).
Defined.

(* ===================================================================== *)
(** ** More on the per-event handler *)
(* ===================================================================== *)

(** X6. The calls of the handler of an audio or video event come in one
    order: loading, content, reading the body, transcription, reply.  Every
    run issues a beginning of that list: nothing is transcribed before the
    media has been read, and nothing is replied before the transcription. *)
Theorem media_calls_in_order (event : JSValue) (env : Env) (o : Oracle) (t : nat) :
  (message_type event = VString (js "audio") \/ message_type event = VString (js "video")) ->
  nullish (property event (js "source")) = false ->
  exists resp blob result,
    prefix_of (calls (fst (run o t (handleEvent event env))))
              [loading_of env event; content_of env event; arrayBuffer resp;
               convert_call (ELEVENLABS_API_KEY env) blob;
               reply_of env event [reply_text_of result]].
Proof.
  intros Hm Hs. apply is_media_event_iff in Hm.
  destruct (o t (loading_of env event)) as [a|e] eqn:H0.
  2:{ rewrite (run_loading_rejected env event o t Hm Hs e H0).
      exists (mkFetchResponse 0 []), [], (mkResult None []). eexists. reflexivity. }
  destruct (ToString (property (message_of event) (js "id"))) as [messageId|e] eqn:Hid.
  2:{ rewrite (run_conversion_thrown env event o t Hm Hs a e H0 Hid).
      exists (mkFetchResponse 0 []), [], (mkResult None []). eexists. reflexivity. }
  apply message_id_text_eq in Hid.
  destruct (o (S t) (content_of env event)) as [resp|e] eqn:H1.
  2:{ rewrite (run_content_rejected env event o t Hm Hs _ Hid a e H0 H1).
      exists (mkFetchResponse 0 []), [], (mkResult None []). eexists. reflexivity. }
  destruct (o (S (S t)) (arrayBuffer resp)) as [blob|e] eqn:H2.
  2:{ rewrite (run_buffer_rejected env event o t Hm Hs _ Hid a resp e H0 H1 H2).
      exists resp, [], (mkResult None []). eexists. reflexivity. }
  destruct (o (S (S (S t))) (convert_call (ELEVENLABS_API_KEY env) blob)) as [result|e] eqn:H3.
  2:{ rewrite (run_convert_rejected env event o t Hm Hs _ Hid a resp blob e H0 H1 H2 H3).
      exists resp, blob, (mkResult None []). eexists. reflexivity. }
  rewrite (run_convert_fulfilled env event o t Hm Hs _ Hid a resp blob result H0 H1 H2 H3).
  exists resp, blob, result. exists []. reflexivity.
Qed.

Lemma media_calls_in_order_witness :
  exists resp blob result,
    prefix_of (calls (fst (run sample_world 0 (handleEvent audio_event sample_env))))
              [loading_of sample_env audio_event; content_of sample_env audio_event;
               arrayBuffer resp; convert_call (ELEVENLABS_API_KEY sample_env) blob;
               reply_of sample_env audio_event [reply_text_of result]].
Proof.
  apply (media_calls_in_order audio_event sample_env sample_world 0).
  - left. reflexivity.
  - reflexivity.
Defined.

(** X7. The status of the content response is not looked at.  When
    [message.id] can be converted to a string, then whatever response the
    content request is fulfilled with, a 404 as well as a 200, the bytes
    read from it are what is sent to the transcription service, as the
    [file] of a request for the model "scribe_v1" without audio-event
    tags. *)
Theorem content_status_is_ignored (event : JSValue) (env : Env) (o : Oracle) (t : nat)
        (messageId : Text) (a resp : FetchResponse) (blob : Bytes) :
  (message_type event = VString (js "audio") \/ message_type event = VString (js "video")) ->
  nullish (property event (js "source")) = false ->
  ToString (property (message_of event) (js "id")) = Normal messageId ->
  o t (loading_of env event) = Fulfilled a ->
  o (S t) (content_call (LINE_CHANNEL_ACCESS_TOKEN env) messageId) = Fulfilled resp ->
  o (S (S t)) (arrayBuffer resp) = Fulfilled blob ->
  nth_error (calls (fst (run o t (handleEvent event env)))) 3 =
  Some (speechToText_convert (ELEVENLABS_API_KEY env) (mkConvert blob (js "scribe_v1") false)).
Proof.
  intros Hm Hs Hid H0 H1 H2. apply is_media_event_iff in Hm.
  destruct (o (S (S (S t))) (convert_call (ELEVENLABS_API_KEY env) blob)) as [result|e] eqn:H3.
  - rewrite (run_convert_fulfilled env event o t Hm Hs messageId Hid a resp blob result
               H0 H1 H2 H3).
    reflexivity.
  - rewrite (run_convert_rejected env event o t Hm Hs messageId Hid a resp blob e H0 H1 H2 H3).
    reflexivity.
Qed.

Lemma content_status_is_ignored_witness :
  nth_error
    (calls (fst (run (fun _ c =>
                        match c with
                        | fetch (UrlTemplate _ _ _) _ =>
                            Fulfilled (mkFetchResponse 404 (js "Not found"))
                        | other => sample_world 0%nat other
                        end)
                     0 (handleEvent audio_event sample_env)))) 3 =
  Some (speechToText_convert (js "elevenlabs-key")
                             (mkConvert (js "Not found") (js "scribe_v1") false)).
Proof.
  apply (content_status_is_ignored audio_event sample_env _ 0 [Units (js "42")]
           (mkFetchResponse 200 []) (mkFetchResponse 404 (js "Not found")) (js "Not found")).
  - left. reflexivity.
  - reflexivity.
  - reflexivity.
  - reflexivity.
  - reflexivity.
  - reflexivity.
Defined.

(** X8. The handler settles as its reply request does.  In every run either
    no reply was sent and the handler is rejected, or one reply was sent and
    the outcome of the handler is the outcome of that request: fulfilled with
    its response whatever the status, rejected when the request is. *)
Theorem handler_settles_as_reply (event : JSValue) (env : Env) (o : Oracle) (t : nat) :
  (replies (fst (run o t (handleEvent event env))) = [] /\
   exists e, snd (run o t (handleEvent event env)) = Rejected e) \/
  (exists messages t',
     replies (fst (run o t (handleEvent event env))) = [reply_of env event messages] /\
     snd (run o t (handleEvent event env)) = o t' (reply_of env event messages)).
Proof.
  destruct (nullish event) eqn:Hn.
  { destruct (handleEvent_nullish event env Hn) as [msg ->]. left. cbn. eauto. }
  destruct (is_media_event event) eqn:Hm.
  2:{ rewrite (handleEvent_unsupported event env Hn Hm). cbn [run]. rewrite run_replyText.
      right. exists [instruction], t. split; reflexivity. }
  destruct (nullish (property event (js "source"))) eqn:Hs.
  { destruct (handleEvent_without_source event env Hm Hs) as [msg ->]. left. cbn. eauto. }
  destruct (o t (loading_of env event)) as [a|e] eqn:H0.
  2:{ rewrite (run_loading_rejected env event o t Hm Hs e H0). left. cbn. eauto. }
  destruct (ToString (property (message_of event) (js "id"))) as [messageId|e] eqn:Hid.
  2:{ rewrite (run_conversion_thrown env event o t Hm Hs a e H0 Hid). left. cbn. eauto. }
  destruct (o (S t) (content_call (LINE_CHANNEL_ACCESS_TOKEN env) messageId)) as [resp|e] eqn:H1.
  2:{ rewrite (run_content_rejected env event o t Hm Hs messageId Hid a e H0 H1).
      left. cbn. eauto. }
  destruct (o (S (S t)) (arrayBuffer resp)) as [blob|e] eqn:H2.
  2:{ rewrite (run_buffer_rejected env event o t Hm Hs messageId Hid a resp e H0 H1 H2).
      left. cbn. eauto. }
  destruct (o (S (S (S t))) (convert_call (ELEVENLABS_API_KEY env) blob)) as [result|e] eqn:H3.
  2:{ rewrite (run_convert_rejected env event o t Hm Hs messageId Hid a resp blob e H0 H1 H2 H3).
      left. cbn. eauto. }
  rewrite (run_convert_fulfilled env event o t Hm Hs messageId Hid a resp blob result
             H0 H1 H2 H3).
  right. exists [reply_text_of result], (S (S (S (S t)))). split; reflexivity.
Qed.

(* ===================================================================== *)
(** ** What a whole delivery calls *)
(* ===================================================================== *)

Lemma calls_app (xs ys : list Effect) : calls (xs ++ ys) = calls xs ++ calls ys.
Proof. unfold calls. apply flat_map_app. Qed.

Lemma start_respects (A : Type) (P : Call -> Prop) (p : Prog A) :
  respects P p ->
  Forall P (calls (fst (start p))) /\ task_respects P (snd (start p)).
Proof.
  induction 1 as [a|e|entry k Hk [IH1 IH2]|c k Hc Hk _]; cbn [start emit fst snd].
  - split; [constructor | exact I].
  - split; [constructor | exact I].
  - split; [exact IH1 | exact IH2].
  - split; [repeat constructor; exact Hc | exact Hk].
Qed.

Lemma start_all_respects (A : Type) (P : Call -> Prop) (ps : list (Prog A)) :
  Forall (respects P) ps ->
  Forall P (calls (fst (start_all ps))) /\ Forall (task_respects P) (snd (start_all ps)).
Proof.
  induction 1 as [|p ps Hp Hps [IH1 IH2]]; cbn [start_all fst snd].
  - split; constructor.
  - destruct (start_respects A P p Hp) as [H1 H2]. split.
    + rewrite calls_app. apply Forall_app. split; assumption.
    + constructor; assumption.
Qed.

Lemma resume_respects (A : Type) (P : Call -> Prop) (o : Oracle) (t i : nat)
      (pool : list (Task A)) :
  Forall (task_respects P) pool ->
  Forall P (calls (fst (resume o t i pool))) /\
  Forall (task_respects P) (snd (resume o t i pool)).
Proof.
  intros H. revert i. induction H as [|task pool Htask Hpool IH]; intros i.
  - destruct i; cbn; split; constructor.
  - destruct i as [|i].
    + destruct task as [c k|s]; cbn [resume fst snd].
      * destruct (start_respects A P _ (Htask (o t c))) as [H1 H2].
        split; [exact H1 | constructor; assumption].
      * split; [constructor | constructor; assumption].
    + destruct (IH i) as [H1 H2].
      destruct task as [c k|s]; cbn [resume fst snd];
        (split; [exact H1 | constructor; assumption]).
Qed.

Lemma await_all_respects (A : Type) (P : Call -> Prop) (o : Oracle) (sched : list nat)
      (t : nat) (pool : list (Task A)) :
  Forall (task_respects P) pool ->
  Forall P (calls (waited_effects (await_all o sched t pool))).
Proof.
  revert t pool. induction sched as [|i sched IH]; intros t pool H; cbn [await_all].
  - destruct (Promise_all pool); constructor.
  - destruct (Promise_all pool); [constructor|]. cbn [waited_effects].
    destruct (resume_respects A P o t i pool H) as [H1 H2].
    rewrite calls_app. apply Forall_app. split; [exact H1 | apply IH; exact H2].
Qed.

Lemma dispatch_respects (P : Call -> Prop) (env : Env) (events : list JSValue) (o : Oracle)
      (sched : list nat) :
  (forall event, In event events -> respects P (handleEvent event env)) ->
  Forall P (calls (waited_effects (dispatch env events o sched))).
Proof.
  intros H. unfold dispatch. cbn [waited_effects].
  assert (Hps : Forall (respects P) (map (fun event => handleEvent event env) events)).
  { apply Forall_forall. intros p Hp. apply in_map_iff in Hp.
    destruct Hp as [event [<- Hin]]. apply H. exact Hin. }
  destruct (start_all_respects _ P _ Hps) as [H1 H2].
  rewrite calls_app. apply Forall_app. split; [exact H1|].
  apply await_all_respects. exact H2.
Qed.

Lemma respects_settle (A : Type) (P : Call -> Prop) (r : Settled A) : respects P (settle r).
Proof. destruct r; constructor. Qed.

(** The five calls the handler can make are all it makes. *)
Lemma handleEvent_respects (P : Call -> Prop) (event : JSValue) (env : Env) :
  P (loading_of env event) ->
  P (content_of env event) ->
  (forall resp, P (arrayBuffer resp)) ->
  (forall blob, P (convert_call (ELEVENLABS_API_KEY env) blob)) ->
  (forall messages, P (reply_of env event messages)) ->
  respects P (handleEvent event env).
Proof.
  intros Hl Hc Hb Ht Hr.
  destruct (nullish event) eqn:Hn.
  { destruct (handleEvent_nullish event env Hn) as [msg ->]. repeat constructor. }
  destruct (is_media_event event) eqn:Hm.
  2:{ rewrite (handleEvent_unsupported event env Hn Hm).
      constructor. constructor; [apply Hr | apply respects_settle]. }
  destruct (nullish (property event (js "source"))) eqn:Hs.
  { destruct (handleEvent_without_source event env Hm Hs) as [msg ->]. repeat constructor. }
  rewrite (handleEvent_media event env Hm Hs).
  constructor. constructor; [exact Hl|].
  intros [a|e]; [|constructor]. rewrite after_loading_fulfilled.
  destruct (ToString (property (message_of event) (js "id"))) as [messageId|e] eqn:Hid;
    [|constructor].
  constructor.
  { unfold content_of, message_id_text in Hc. rewrite Hid in Hc. exact Hc. }
  intros [resp|e]; cbn; [|constructor]. constructor; [apply Hb|].
  intros [blob|e]; cbn; [|constructor]. constructor; [apply Ht|].
  intros [result|e]; cbn; [|constructor].
  constructor; [apply Hr | apply respects_settle].
Qed.

(** X9. Credentials go where they belong.  Every request a delivery sends
    with [fetch] goes to one of the three URLs of the chat platform and
    carries the channel access token as its bearer credential; every
    transcription request carries the ElevenLabs key and asks for
    "scribe_v1" without audio-event tags.  This holds for every list of
    events, environment and schedule. *)
Theorem delivery_calls_are_authorized (env : Env) (events : list JSValue) (o : Oracle)
        (sched : list nat) :
  Forall (authorized env) (calls (waited_effects (dispatch env events o sched))).
Proof.
  apply dispatch_respects. intros event _.
  apply handleEvent_respects; intros; cbn; repeat split; auto.
Qed.

(** X10. Every reply a delivery sends answers one of its events: the JSON
    value it sends has, as its [replyToken], the reply token of an event of
    the delivery. *)
Theorem delivery_replies_answer_events (env : Env) (events : list JSValue) (o : Oracle)
        (sched : list nat) :
  Forall (fun c => exists event,
                     In event events /\
                     sent_reply_token c = Some (property event (js "replyToken")))
         (replies (waited_effects (dispatch env events o sched))).
Proof.
  assert (H : Forall (fun c => is_reply c = true ->
                        exists event,
                          In event events /\
                          sent_reply_token c = Some (property event (js "replyToken")))
                     (calls (waited_effects (dispatch env events o sched)))).
  { apply dispatch_respects. intros event Hin.
    apply handleEvent_respects; try (intros; discriminate).
    intros messages _. exists event. split; [exact Hin | reflexivity]. }
  unfold replies. rewrite Forall_forall in *. intros c Hc.
  apply filter_In in Hc. destruct Hc as [Hc Hr]. apply (H c Hc Hr).
Qed.

Lemma weight_app (w : Call -> nat) (xs ys : list Effect) :
  weight w (xs ++ ys) = (weight w xs + weight w ys)%nat.
Proof. unfold weight. rewrite calls_app, map_app, list_sum_app. reflexivity. Qed.

Lemma list_sum_cons (x : nat) (l : list nat) : list_sum (x :: l) = (x + list_sum l)%nat.
Proof. reflexivity. Qed.

Lemma budget_weaken (A : Type) (w : Call -> nat) (n : nat) (p : Prog A) :
  budget w n p -> forall m, (n <= m)%nat -> budget w m p.
Proof.
  induction 1 as [n a|n e|n entry k Hk IH|n c k Hk IH]; intros m Hm.
  - constructor.
  - constructor.
  - constructor. apply IH. exact Hm.
  - replace m with (w c + (m - w c))%nat by lia. constructor.
    intro r. apply IH. lia.
Qed.

Lemma start_budget (A : Type) (w : Call -> nat) (n : nat) (p : Prog A) :
  budget w n p ->
  exists m, task_budget w m (snd (start p)) /\ (weight w (fst (start p)) + m <= n)%nat.
Proof.
  induction 1 as [n a|n e|n entry k Hk [m [IH1 IH2]]|n c k Hk _]; cbn [start emit fst snd].
  - exists 0%nat. split; [exact I | cbn; lia].
  - exists 0%nat. split; [exact I | cbn; lia].
  - exists m. split; [exact IH1 | exact IH2].
  - exists n. split; [exact Hk | cbn; lia].
Qed.

Lemma start_all_budget (A : Type) (w : Call -> nat) (n : nat) (ps : list (Prog A)) :
  Forall (budget w n) ps ->
  exists ns, Forall2 (task_budget w) ns (snd (start_all ps)) /\
             (weight w (fst (start_all ps)) + list_sum ns <= n * length ps)%nat.
Proof.
  induction 1 as [|p ps Hp Hps [ns [IH1 IH2]]]; cbn [start_all fst snd length].
  - exists []. split; [constructor | cbn; lia].
  - destruct (start_budget A w n p Hp) as [m [H1 H2]].
    exists (m :: ns). split; [constructor; assumption|].
    rewrite weight_app, Nat.mul_succ_r, list_sum_cons. lia.
Qed.

Lemma resume_budget (A : Type) (w : Call -> nat) (o : Oracle) (t : nat) :
  forall (i : nat) (ns : list nat) (pool : list (Task A)),
  Forall2 (task_budget w) ns pool ->
  exists ns', Forall2 (task_budget w) ns' (snd (resume o t i pool)) /\
              (weight w (fst (resume o t i pool)) + list_sum ns' <= list_sum ns)%nat.
Proof.
  intros i ns pool H. revert i.
  induction H as [|n task ns pool Htask Hpool IH]; intros i.
  - exists []. destruct i; cbn; split; try constructor; lia.
  - destruct i as [|i].
    + destruct task as [c k|s]; cbn [resume fst snd].
      * destruct (start_budget A w n _ (Htask (o t c))) as [m [H1 H2]].
        exists (m :: ns). split; [constructor; assumption | rewrite !list_sum_cons; lia].
      * exists (n :: ns). split; [constructor; assumption | cbn; lia].
    + destruct (IH i) as [ns' [H1 H2]]. exists (n :: ns').
      destruct task as [c k|s]; cbn [resume fst snd];
        (split; [constructor; assumption | rewrite !list_sum_cons; lia]).
Qed.

Lemma await_all_budget (A : Type) (w : Call -> nat) (o : Oracle) (sched : list nat) :
  forall (t : nat) (ns : list nat) (pool : list (Task A)),
  Forall2 (task_budget w) ns pool ->
  (weight w (waited_effects (await_all o sched t pool)) <= list_sum ns)%nat.
Proof.
  induction sched as [|i sched IH]; intros t ns pool H; cbn [await_all].
  - destruct (Promise_all pool); cbn; lia.
  - destruct (Promise_all pool); [cbn; lia|]. cbn [waited_effects].
    destruct (resume_budget A w o t i ns pool H) as [ns' [H1 H2]].
    rewrite weight_app. pose proof (IH (S t) ns' _ H1). lia.
Qed.

Lemma dispatch_budget (w : Call -> nat) (n : nat) (env : Env) (events : list JSValue)
      (o : Oracle) (sched : list nat) :
  (forall event, budget w n (handleEvent event env)) ->
  (weight w (waited_effects (dispatch env events o sched)) <= n * length events)%nat.
Proof.
  intros H. unfold dispatch. cbn [waited_effects].
  assert (Hps : Forall (budget w n) (map (fun event => handleEvent event env) events)).
  { apply Forall_forall. intros p Hp. apply in_map_iff in Hp.
    destruct Hp as [event [<- _]]. apply H. }
  destruct (start_all_budget _ w n _ Hps) as [ns [H1 H2]].
  rewrite weight_app. rewrite length_map in H2.
  pose proof (await_all_budget _ w o sched 0 ns _ H1). lia.
Qed.

Lemma budget_settle (A : Type) (w : Call -> nat) (n : nat) (r : Settled A) :
  budget w n (settle r).
Proof. destruct r; constructor. Qed.

(** The handler spends at most the weights of its five calls. *)
Lemma handleEvent_budget (w : Call -> nat) (l c b v r : nat) (event : JSValue) (env : Env) :
  w (loading_of env event) = l ->
  w (content_of env event) = c ->
  (forall resp, w (arrayBuffer resp) = b) ->
  (forall blob, w (convert_call (ELEVENLABS_API_KEY env) blob) = v) ->
  (forall messages, w (reply_of env event messages) = r) ->
  budget w (l + (c + (b + (v + (r + 0))))) (handleEvent event env).
Proof.
  intros Hl Hc Hb Hv Hr.
  assert (Hreply : forall messages,
            budget w (r + 0)
                   (replyText (LINE_CHANNEL_ACCESS_TOKEN env) (property event (js "replyToken"))
                              messages)).
  { intros messages. rewrite <- (Hr messages). constructor. intro x. apply budget_settle. }
  destruct (nullish event) eqn:Hn.
  { destruct (handleEvent_nullish event env Hn) as [msg ->]. repeat constructor. }
  destruct (is_media_event event) eqn:Hm.
  2:{ rewrite (handleEvent_unsupported event env Hn Hm). constructor.
      apply (budget_weaken _ w _ _ (Hreply [instruction])). lia. }
  destruct (nullish (property event (js "source"))) eqn:Hs.
  { destruct (handleEvent_without_source event env Hm Hs) as [msg ->]. repeat constructor. }
  rewrite (handleEvent_media event env Hm Hs).
  constructor. rewrite <- Hl. constructor.
  intros [a|e]; [|constructor]. rewrite after_loading_fulfilled.
  destruct (ToString (property (message_of event) (js "id"))) as [messageId|e] eqn:Hid;
    [|constructor].
  unfold content_of, message_id_text in Hc. rewrite Hid in Hc.
  rewrite <- Hc. constructor.
  intros [resp|e]; cbn; [|constructor]. rewrite <- (Hb resp). constructor.
  intros [blob|e]; cbn; [|constructor]. rewrite <- (Hv blob). constructor.
  intros [result|e]; cbn; [|constructor]. apply Hreply.
Qed.

(** X11. A delivery of N events makes at most 5 N calls, among them at most N
    replies, N transcription requests and N loading calls, for every
    environment and every schedule. *)
Theorem delivery_call_budget (env : Env) (events : list JSValue) (o : Oracle)
        (sched : list nat) :
  (length (calls (waited_effects (dispatch env events o sched))) <= 5 * length events)%nat /\
  (length (replies (waited_effects (dispatch env events o sched))) <= length events)%nat /\
  (length (filter is_transcription (calls (waited_effects (dispatch env events o sched))))
   <= length events)%nat /\
  (length (filter is_loading (calls (waited_effects (dispatch env events o sched))))
   <= length events)%nat.
Proof.
  assert (Hcount : forall (kind : Call -> bool) (cs : list Call),
            length (filter kind cs) = list_sum (map (count_of kind) cs)).
  { intros kind cs. induction cs as [|c cs IH]; [reflexivity|].
    cbn [filter map list_sum]. unfold count_of at 1.
    destruct (kind c); cbn [length]; rewrite IH; reflexivity. }
  assert (Hone : forall cs : list Call, length cs = list_sum (map (fun _ => 1%nat) cs)).
  { intros cs. induction cs as [|c cs IH]; [reflexivity|]. cbn. rewrite IH. reflexivity. }
  split; [|split; [|split]].
  - rewrite Hone.
    apply (dispatch_budget (fun _ => 1%nat) 5 env events o sched).
    intros event. apply (handleEvent_budget (fun _ => 1%nat) 1 1 1 1 1); reflexivity.
  - unfold replies. rewrite Hcount.
    pose proof (dispatch_budget (count_of is_reply) 1 env events o sched) as H.
    unfold weight in H. rewrite Nat.mul_1_l in H. apply H.
    intros event. apply (handleEvent_budget (count_of is_reply) 0 0 0 0 1); reflexivity.
  - rewrite Hcount.
    pose proof (dispatch_budget (count_of is_transcription) 1 env events o sched) as H.
    unfold weight in H. rewrite Nat.mul_1_l in H. apply H.
    intros event. apply (handleEvent_budget (count_of is_transcription) 0 0 0 1 0); reflexivity.
  - rewrite Hcount.
    pose proof (dispatch_budget (count_of is_loading) 1 env events o sched) as H.
    unfold weight in H. rewrite Nat.mul_1_l in H. apply H.
    intros event. apply (handleEvent_budget (count_of is_loading) 1 0 0 0 0); reflexivity.
Qed.

(* ===================================================================== *)
(** ** Handlers do not depend on each other *)
(* ===================================================================== *)

Lemma run_timeless (A : Type) (o : Oracle) (p : Prog A) :
  timeless o -> forall t t', run o t p = run o t' p.
Proof.
  intros Ho. induction p as [a|e|entry k IH|c k IH]; intros t t'; cbn [run].
  - reflexivity.
  - reflexivity.
  - rewrite (IH t t'). reflexivity.
  - rewrite (Ho t t' c). rewrite (IH (o t' c) (S t) (S t')). reflexivity.
Qed.

Lemma alone_start (A : Type) (o : Oracle) (p : Prog A) :
  timeless o -> forall t, alone o (snd (start p)) = snd (run o t p).
Proof.
  intros Ho. induction p as [a|e|entry k IH|c k _]; intros t; cbn [start run emit fst snd alone].
  - reflexivity.
  - reflexivity.
  - apply IH.
  - rewrite (Ho 0%nat t c). rewrite (run_timeless _ o (k (o t c)) Ho 0%nat (S t)). reflexivity.
Qed.

Lemma alone_resume (A : Type) (o : Oracle) (t i : nat) (pool : list (Task A)) :
  timeless o -> map (alone o) (snd (resume o t i pool)) = map (alone o) pool.
Proof.
  intros Ho. revert i. induction pool as [|task pool IH]; intros i.
  - destruct i; reflexivity.
  - destruct i as [|i].
    + destruct task as [c k|s]; cbn [resume fst snd map]; [|reflexivity].
      f_equal. rewrite (alone_start _ o _ Ho 0%nat). cbn [alone].
      rewrite (Ho t 0%nat c). reflexivity.
    + destruct task as [c k|s]; cbn [resume fst snd map]; rewrite IH; reflexivity.
Qed.

Lemma alone_await_all (A : Type) (o : Oracle) (sched : list nat) (t : nat)
      (pool : list (Task A)) :
  timeless o ->
  map (alone o) (waited_pool (await_all o sched t pool)) = map (alone o) pool.
Proof.
  intros Ho. revert t pool. induction sched as [|i sched IH]; intros t pool; cbn [await_all].
  - destruct (Promise_all pool); reflexivity.
  - destruct (Promise_all pool); [reflexivity|]. cbn [waited_pool].
    rewrite IH. apply alone_resume. exact Ho.
Qed.

Lemma alone_start_all (A : Type) (o : Oracle) (ps : list (Prog A)) :
  timeless o ->
  map (alone o) (snd (start_all ps)) = map (fun p => snd (run o 0 p)) ps.
Proof.
  intros Ho. induction ps as [|p ps IH]; [reflexivity|].
  cbn [start_all snd map]. rewrite IH, (alone_start _ o p Ho 0%nat). reflexivity.
Qed.

Lemma alone_dispatch (env : Env) (events : list JSValue) (o : Oracle) (sched : list nat) :
  timeless o ->
  map (alone o) (waited_pool (dispatch env events o sched)) =
  map (fun event => snd (run o 0 (handleEvent event env))) events.
Proof.
  intros Ho. unfold dispatch. cbn [waited_pool].
  rewrite (alone_await_all _ o sched 0 _ Ho), (alone_start_all _ o _ Ho), map_map.
  reflexivity.
Qed.

Lemma map_Fulfilled_injective (A : Type) (l l' : list A) :
  map (fun r => Fulfilled r) l = map (fun r => Fulfilled r) l' -> l = l'.
Proof.
  revert l'. induction l as [|a l IH]; intros [|a' l'] H; try discriminate H.
  - reflexivity.
  - cbn [map] in H. injection H as Ha Hl. rewrite Ha, (IH l' Hl). reflexivity.
Qed.

Lemma fulfilled_alone (env : Env) (events : list JSValue) (o : Oracle) (sched : list nat)
      (responses : list FetchResponse) :
  timeless o ->
  waited_outcome (dispatch env events o sched) = Some (Fulfilled responses) ->
  map (fun event => snd (run o 0 (handleEvent event env))) events =
  map (fun r => Fulfilled r) responses.
Proof.
  intros Ho H. destruct (dispatch_outcome env events o sched) as [Hout _].
  pose proof (alone_dispatch env events o sched Ho) as Halone.
  rewrite H in Hout. symmetry in Hout.
  apply Promise_all_fulfilled in Hout. rewrite Hout in Halone.
  rewrite map_map in Halone. symmetry. exact Halone.
Qed.

Lemma rejected_alone (env : Env) (events : list JSValue) (o : Oracle) (sched : list nat)
      (e : JSError) :
  timeless o ->
  waited_outcome (dispatch env events o sched) = Some (Rejected e) ->
  exists event, In event events /\ snd (run o 0 (handleEvent event env)) = Rejected e.
Proof.
  intros Ho H. destruct (dispatch_outcome env events o sched) as [Hout _].
  pose proof (alone_dispatch env events o sched Ho) as Halone.
  rewrite H in Hout. symmetry in Hout.
  apply Promise_all_rejected in Hout.
  apply (in_map (alone o)) in Hout. rewrite Halone in Hout. cbn [alone] in Hout.
  apply in_map_iff in Hout. destruct Hout as [event [H1 H2]]. exists event. auto.
Qed.

(** X12. Handlers share nothing.  In an environment whose answers do not
    depend on timing: when the handlers of a delivery are all fulfilled, the
    responses, in the order of the events, are what each handler gets when
    it runs alone; they are the same for every order of completion that
    ends with all handlers fulfilled, and no order of completion then ends
    with a rejection.  When the wait ends with a rejection, the error is one
    that a handler of the delivery is rejected with when it runs alone;
    which of several such errors is reported depends on the order of
    completion. *)
Theorem handlers_are_independent (env : Env) (events : list JSValue) (o : Oracle)
        (sched : list nat) :
  timeless o ->
  (forall responses,
     waited_outcome (dispatch env events o sched) = Some (Fulfilled responses) ->
     map (fun event => snd (run o 0 (handleEvent event env))) events =
     map (fun r => Fulfilled r) responses /\
     forall sched',
       (forall responses',
          waited_outcome (dispatch env events o sched') = Some (Fulfilled responses') ->
          responses' = responses) /\
       (forall e, waited_outcome (dispatch env events o sched') <> Some (Rejected e))) /\
  (forall e,
     waited_outcome (dispatch env events o sched) = Some (Rejected e) ->
     exists event, In event events /\ snd (run o 0 (handleEvent event env)) = Rejected e).
Proof.
  intros Ho. split.
  - intros responses H. pose proof (fulfilled_alone env events o sched responses Ho H) as Hall.
    split; [exact Hall|]. intros sched'. split.
    + intros responses' H'.
      pose proof (fulfilled_alone env events o sched' responses' Ho H') as Hall'.
      rewrite Hall in Hall'. symmetry. apply map_Fulfilled_injective. exact Hall'.
    + intros e H'. destruct (rejected_alone env events o sched' e Ho H') as [event [Hin He]].
      apply (in_map (fun event => snd (run o 0 (handleEvent event env)))) in Hin.
      rewrite Hall, He in Hin. apply in_map_iff in Hin.
      destruct Hin as [r [Hr _]]. discriminate Hr.
  - intros e H. apply (rejected_alone env events o sched e Ho H).
Qed.

Lemma sample_world_timeless : timeless sample_world.
Proof. intros t t' c. reflexivity. Qed.

Lemma handlers_are_independent_witness :
  map (fun event => snd (run sample_world 0 (handleEvent event sample_env)))
      [audio_event; text_event] =
  map (fun r => Fulfilled r) [mkFetchResponse 200 []; mkFetchResponse 200 []].
Proof.
  apply (proj1 (handlers_are_independent sample_env [audio_event; text_event] sample_world
                  [0; 1; 0; 0; 0; 0]%nat sample_world_timeless)
               [mkFetchResponse 200 []; mkFetchResponse 200 []]).
  vm_compute. reflexivity.
Defined.

(** Which rejection is reported depends on the order of completion: the
    loading call of the first event and the reply of the second are both
    rejected, and the one that completes first rejects the delivery. *)
Example rejection_depends_on_order :
  waited_outcome
    (dispatch sample_env [audio_event; text_event]
              (fun _ c =>
                 match c with
                 | fetch (UrlLiteral u) _ =>
                     if JSString_eqb u loading_endpoint
                     then Rejected (NetworkError (js "loading"))
                     else Rejected (NetworkError (js "reply"))
                 | other => sample_world 0%nat other
                 end)
              [0%nat]) = Some (Rejected (NetworkError (js "loading"))) /\
  waited_outcome
    (dispatch sample_env [audio_event; text_event]
              (fun _ c =>
                 match c with
                 | fetch (UrlLiteral u) _ =>
                     if JSString_eqb u loading_endpoint
                     then Rejected (NetworkError (js "loading"))
                     else Rejected (NetworkError (js "reply"))
                 | other => sample_world 0%nat other
                 end)
              [1%nat]) = Some (Rejected (NetworkError (js "reply"))).
Proof. split; vm_compute; reflexivity. Qed.

(** X13. In an environment whose answers do not depend on timing and in
    which every handler of the delivery is fulfilled when it runs alone, a
    verified delivery is acknowledged: with the complete schedule the route
    answers 200 "OK". *)
Theorem delivery_is_acknowledged (env : Env) (req : Request) (o : Oracle) (body : JSValue)
        (events : list JSValue) :
  validateSignature (LINE_CHANNEL_SECRET env) (req_text req) (signature_of req) = Fulfilled true ->
  JSON.parse (req_text req) = Some body ->
  property body (js "events") = VArray events ->
  timeless o ->
  (forall event, In event events ->
                 exists r, snd (run o 0 (handleEvent event env)) = Fulfilled r) ->
  snd (webhook env req o (complete_schedule (length events))) =
  Some (Fulfilled (mkResponse (js "OK") 200)).
Proof.
  intros Hv Hp Harr Ho Hall.
  rewrite (webhook_verified env req o _ body events Hv Hp (events_of_array body events Harr)).
  pose proof (dispatch_settles env events o) as Hs.
  destruct (dispatch_outcome env events o (complete_schedule (length events))) as [Hout _].
  destruct (waited_outcome (dispatch env events o (complete_schedule (length events))))
    as [[l|e]|].
  - reflexivity.
  - exfalso. symmetry in Hout. apply Promise_all_rejected in Hout.
    apply (in_map (alone o)) in Hout.
    rewrite (alone_dispatch env events o _ Ho) in Hout. cbn [alone] in Hout.
    apply in_map_iff in Hout. destruct Hout as [event [H1 H2]].
    destruct (Hall event H2) as [r Hr]. rewrite Hr in H1. discriminate H1.
  - exfalso. apply Hs. reflexivity.
Qed.

Lemma sample_handlers_fulfilled (event : JSValue) :
  In event [audio_event; text_event] ->
  exists r, snd (run sample_world 0 (handleEvent event sample_env)) = Fulfilled r.
Proof.
  intros [<-|[<-|[]]]; eexists; reflexivity.
Qed.

Lemma delivery_is_acknowledged_witness :
  snd (webhook sample_env (signed sample_env sample_text) sample_world
               (complete_schedule (length [audio_event; text_event]))) =
  Some (Fulfilled (mkResponse (js "OK") 200)).
Proof.
  apply (delivery_is_acknowledged sample_env (signed sample_env sample_text) sample_world
           sample_value [audio_event; text_event]
           (signed_is_valid sample_env sample_text sample_secret_nonempty sample_text_utf8) eq_refl eq_refl
           sample_world_timeless sample_handlers_fulfilled).
Defined.
